(** * rocRAND device Poisson samplers (library/include/rocrand_poisson.h)

    A shallow embedding of the device-side Poisson sampling kernel:
    Knuth's method, Atkinson's rejection method PA, the normal
    approximation, the chunked iterative sampler and the two dispatchers,
    together with the properties stated for them.

    Doubles are IEEE binary64 values ([spec_float] with [prec = 53],
    [emax = 1024]); [unsigned int] and [int] are integers with their
    32-bit range written out; the generator state is threaded explicitly;
    loops take a fuel argument.

    The benchmark program (benchmark/benchmark_rocrand_generate.cpp) is
    embedded as well: its selection of engines and distributions, and
    its runs against the devices as programs over a trace of calls. *)

From Stdlib Require Import ZArith Bool List Lia.
From Stdlib Require Import Floats.
From Stdlib Require String Ascii.
Import ListNotations.

#[local] Set Warnings "-inexact-float".
#[local] Open Scope Z_scope.

(* ================================================================== *)
(** * IEEE binary64 *)
(* ================================================================== *)

Module Double.

Definition double : Type := spec_float.

Definition prec : Z := 53.
Definition emax : Z := 1024.

Definition add : double -> double -> double := SFadd prec emax.
Definition sub : double -> double -> double := SFsub prec emax.
Definition mul : double -> double -> double := SFmul prec emax.
Definition div : double -> double -> double := SFdiv prec emax.
Definition opp : double -> double := SFopp.

(** C++ [a < b], [a <= b], [a > b] on doubles: false as soon as one
    operand is a NaN. *)
Definition ltb (a b : double) : bool := SFltb a b.
Definition leb (a b : double) : bool := SFleb a b.
Definition gtb (a b : double) : bool := SFltb b a.

(** Conversion of an [int] to [double] (exact below 2^53). *)
Definition of_int (z : Z) : double := binary_normalize prec emax z 0 false.

(** A double literal of the source, rounded to nearest as the
    compiler does. *)
Definition lit (f : float) : double := Prim2SF f.

(** Truncation toward zero of a finite double; [None] on infinities
    and NaN. *)
Definition trunc (d : double) : option Z :=
  match d with
  | S754_zero _ => Some 0
  | S754_finite s m e =>
      let a := Z.shiftl (Zpos m) e in
      Some (if s then - a else a)
  | S754_infinity _ | S754_nan => None
  end.

End Double.

Import Double.

Declare Scope double_scope.
Delimit Scope double_scope with dbl.
Bind Scope double_scope with double.
Infix "+" := Double.add : double_scope.
Infix "-" := Double.sub : double_scope.
Infix "*" := Double.mul : double_scope.
Infix "/" := Double.div : double_scope.
Notation "- x" := (Double.opp x) : double_scope.
Infix "<?" := Double.ltb : double_scope.
Infix "<=?" := Double.leb : double_scope.
Infix ">?" := Double.gtb : double_scope.

(** The literals of the source file. *)
Definition d_0 : double := Eval vm_compute in lit 0.
Definition d_0_5 : double := Eval vm_compute in lit 0.5.
Definition d_1 : double := Eval vm_compute in lit 1.
Definition d_3 : double := Eval vm_compute in lit 3.
Definition d_0_767 : double := Eval vm_compute in lit 0.767.
Definition d_3_36 : double := Eval vm_compute in lit 3.36.
Definition d_500 : double := Eval vm_compute in lit 500.
Definition d_1000 : double := Eval vm_compute in lit 1000.

(* ================================================================== *)
(** * Machine integers and results *)
(* ================================================================== *)

Definition UINT_MODULUS : Z := 2 ^ 32.
Definition INT_MAX : Z := 2 ^ 31 - 1.

(** [unsigned int] arithmetic is modulo 2^32. *)
Definition uint_wrap (z : Z) : Z := z mod UINT_MODULUS.

(** What the language leaves undefined and the samplers can run into. *)
Inductive fault : Type :=
| NegativeToUnsigned   (* a double below -1 (or -inf) converted to unsigned int *)
| UnsignedOutOfRange   (* a double of 2^32 or more, +inf or NaN converted to unsigned int *)
| SignedOverflow.      (* an [int] incremented past INT_MAX *)

Inductive outcome (A : Type) : Type :=
| Ret (a : A)
| Undefined (f : fault)
| OutOfFuel.

Arguments Ret {A} a.
Arguments Undefined {A} f.
Arguments OutOfFuel {A}.

Definition bind {A B : Type} (m : outcome A) (k : A -> outcome B) : outcome B :=
  match m with
  | Ret a => k a
  | Undefined f => Undefined f
  | OutOfFuel => OutOfFuel
  end.

Notation "x <- m ;; k" := (bind m (fun x => k))
  (at level 61, m at next level, right associativity).
Notation "' p <- m ;; k" := (bind m (fun p => k))
  (at level 61, p pattern, m at next level, right associativity).

(** [static_cast<unsigned int>(d)]: truncation toward zero, undefined
    when the truncated value is not an [unsigned int]. *)
Definition static_cast_uint (d : double) : outcome Z :=
  match trunc d with
  | Some z =>
      if z <? 0 then Undefined NegativeToUnsigned
      else if z <? UINT_MODULUS then Ret z
      else Undefined UnsignedOutOfRange
  | None =>
      match d with
      | S754_infinity true => Undefined NegativeToUnsigned
      | _ => Undefined UnsignedOutOfRange
      end
  end.

(** [i + n] on [int]s. *)
Definition int_add (i n : Z) : outcome Z :=
  if i + n <=? INT_MAX then Ret (i + n) else Undefined SignedOverflow.

(* ================================================================== *)
(** * What the header takes from elsewhere *)
(* ================================================================== *)

(** The device math functions the samplers call and the constant
    [ROCRAND_PI_DOUBLE] of rocrand_common.h. *)
Class Libm : Type := {
  exp : double -> double;
  log : double -> double;
  lgamma : double -> double;
  sqrt : double -> double;
  floor : double -> double;
  round : double -> double;
  ROCRAND_PI_DOUBLE : double
}.

(** A generator state type: the two draws of rocrand_uniform.h and
    rocrand_normal.h, each returning the value and the advanced state. *)
Class Generator (State : Type) : Type := {
  rocrand_uniform_double : State -> double * State;
  rocrand_normal_double : State -> double * State
}.

(** The state reached after [n] uniform draws. *)
Fixpoint uniform_draws {State} `{Generator State} (n : nat) (st : State) : State :=
  match n with
  | O => st
  | S n' => uniform_draws n' (snd (rocrand_uniform_double st))
  end.

(** The running product of the first [n] uniform draws from [st],
    starting from [p]. *)
Fixpoint running_product {State} `{Generator State}
    (n : nat) (p : double) (st : State) : double :=
  match n with
  | O => p
  | S n' =>
      let (u, st') := rocrand_uniform_double st in
      running_product n' (p * u)%dbl st'
  end.

(** A generator that counts the draws made through it. *)
Record counted (State : Type) : Type := Counted {
  gen : State;
  uniforms_drawn : nat;
  normals_drawn : nat
}.

Arguments Counted {State} gen uniforms_drawn normals_drawn.
Arguments gen {State} c.
Arguments uniforms_drawn {State} c.
Arguments normals_drawn {State} c.

#[global] Instance counted_Generator {State} `{Generator State} :
  Generator (counted State) := {
  rocrand_uniform_double c :=
    let (u, st) := rocrand_uniform_double (gen c) in
    (u, Counted st (S (uniforms_drawn c)) (normals_drawn c));
  rocrand_normal_double c :=
    let (z, st) := rocrand_normal_double (gen c) in
    (z, Counted st (uniforms_drawn c) (S (normals_drawn c)))
}.

(* ================================================================== *)
(** * namespace rocrand_device::detail *)
(* ================================================================== *)

Definition lambda_threshold_small : double := Eval vm_compute in lit 64.
Definition lambda_threshold_huge : double := Eval vm_compute in lit 4000.

Section Samplers.

Context {M : Libm} {State : Type} {G : Generator State}.

#[local] Open Scope double_scope.

(** ** Knuth's method *)

(** The do-while loop; [k] and [product] are the values on entry to
    the body.  Returns the loop's exit values of [k] and the state. *)
Fixpoint small_loop (fuel : nat) (limit : double) (k : Z) (product : double)
    (state : State) : outcome (Z * State) :=
  match fuel with
  | O => OutOfFuel
  | S fuel' =>
      let k := uint_wrap (k + 1) in
      let (u, state) := rocrand_uniform_double state in
      let product := product * u in
      if product >? limit
      then small_loop fuel' limit k product state
      else Ret (k, state)
  end.

Definition poisson_distribution_small (fuel : nat) (state : State)
    (lambda : double) : outcome (Z * State) :=
  let limit := exp (- lambda) in
  ' (k, state) <- small_loop fuel limit 0%Z d_1 state ;;
  Ret (uint_wrap (k - 1), state).

Definition log_factorial (n : double) : double :=
  if n <=? d_1 then d_0 else lgamma (n + d_1).

(** ** Rejection method PA *)

Fixpoint large_loop (fuel : nat) (alpha beta k log_lambda : double)
    (state : State) : outcome (Z * State) :=
  match fuel with
  | O => OutOfFuel
  | S fuel' =>
      let (u, state) := rocrand_uniform_double state in
      let x := (alpha - log ((d_1 - u) / u)) / beta in
      let n := floor (x + d_0_5) in
      if n <? of_int 0 then large_loop fuel' alpha beta k log_lambda state
      else
        let (v, state) := rocrand_uniform_double state in
        let y := alpha - beta * x in
        let t := d_1 + exp y in
        let lhs := y + log (v / (t * t)) in
        let rhs := k + n * log_lambda - log_factorial n in
        if lhs <=? rhs
        then r <- static_cast_uint n ;; Ret (r, state)
        else large_loop fuel' alpha beta k log_lambda state
  end.

Definition poisson_distribution_large (fuel : nat) (state : State)
    (lambda : double) : outcome (Z * State) :=
  let c := d_0_767 - d_3_36 / lambda in
  let beta := ROCRAND_PI_DOUBLE / sqrt (d_3 * lambda) in
  let alpha := beta * lambda in
  let k := log c - lambda - log beta in
  let log_lambda := log lambda in
  large_loop fuel alpha beta k log_lambda state.

(** ** Normal approximation *)

Definition poisson_distribution_huge (state : State) (lambda : double)
    : outcome (Z * State) :=
  let (n, state) := rocrand_normal_double state in
  r <- static_cast_uint (round (sqrt lambda * n + lambda)) ;;
  Ret (r, state).

(** ** The standard dispatcher *)

Definition poisson_distribution (fuel : nat) (state : State)
    (lambda : double) : outcome (Z * State) :=
  if lambda <? lambda_threshold_small
  then poisson_distribution_small fuel state lambda
  else if lambda <=? lambda_threshold_huge
  then poisson_distribution_large fuel state lambda
  else poisson_distribution_huge state lambda.

(** ** The chunked iterative sampler *)

(** The local variables of [poisson_itr] that the loops update.
    [L] is declared uninitialised and assigned before every use. *)
Record itr_vars : Type := ItrVars {
  L : double;
  x : double;
  y : double;
  k : Z;
  pow : Z
}.

(** The straight-line head of the outer loop body:
    the choice of [L], [x *= L], [y *= L], [pow += 500]. *)
Definition itr_chunk (lambda upow ex : double) (v : itr_vars)
    : outcome itr_vars :=
  let L' := if lambda >? upow then ex
            else exp (of_int (pow v) - lambda) in
  pow' <- int_add (pow v) 500 ;;
  Ret (ItrVars L' (x v * L') (y v * L') (k v) pow').

(** The body of the inner loop: [k++; x *= lambda / k; y += x;]. *)
Definition itr_body (lambda : double) (v : itr_vars) : outcome itr_vars :=
  k' <- int_add (k v) 1 ;;
  let x' := x v * (lambda / of_int k') in
  let y' := y v + x' in
  Ret (ItrVars (L v) x' y' k' (pow v)).

(** [while (u > y) { k++; x *= lambda / k; y += x; }] *)
Fixpoint itr_inner (fuel : nat) (lambda u : double) (v : itr_vars)
    : outcome itr_vars :=
  match fuel with
  | O => OutOfFuel
  | S fuel' =>
      if u >? y v then
        v' <- itr_body lambda v ;;
        itr_inner fuel' lambda u v'
      else Ret v
  end.

(** The variables after [n] passes through the inner loop body, when
    the loop makes that many. *)
Fixpoint itr_inner_passes (n : nat) (lambda u : double) (v : itr_vars)
    : option itr_vars :=
  match n with
  | O => Some v
  | S n' =>
      if u >? y v then
        match itr_body lambda v with
        | Ret v' => itr_inner_passes n' lambda u v'
        | _ => None
        end
      else None
  end.

(** The outer do-while; every inner loop gets [inner_fuel]. *)
Fixpoint itr_outer (fuel inner_fuel : nat) (lambda u upow ex : double)
    (v : itr_vars) : outcome itr_vars :=
  match fuel with
  | O => OutOfFuel
  | S fuel' =>
      v <- itr_chunk lambda upow ex v ;;
      v <- itr_inner inner_fuel lambda u v ;;
      if of_int (pow v) <? lambda
      then itr_outer fuel' inner_fuel lambda u upow ex v
      else Ret v
  end.

(** The variables on entry to the outer loop. *)
Definition itr_init : itr_vars := ItrVars d_0 d_1 d_1 0%Z 0%Z.

Definition poisson_itr (fuel : nat) (state : State) (lambda : double)
    : outcome (Z * State) :=
  let (u, state) := rocrand_uniform_double state in
  let upow := of_int (pow itr_init) + d_500 in
  let ex := exp (- d_500) in
  v <- itr_outer fuel fuel lambda u upow ex itr_init ;;
  Ret (uint_wrap (k v), state).

(** ** The chunked dispatcher *)

Definition _poisson_distribution (fuel : nat) (state : State)
    (lambda : double) : outcome (Z * State) :=
  if lambda <? d_1000
  then poisson_itr fuel state lambda
  else poisson_distribution_huge state lambda.

End Samplers.

(* ================================================================== *)
(** * The device API *)
(* ================================================================== *)

(** The generator state types [rocrand_poisson] is overloaded on. *)
Inductive engine : Type :=
| philox4x32_10 | mrg32k3a | xorwow | mtgp32 | sobol32.

Record uint4 : Type := Uint4 { c_x : Z; c_y : Z; c_z : Z; c_w : Z }.

Section Api.

Context {M : Libm} {State : Type} {G : Generator State}.

Definition rocrand_poisson (e : engine) (fuel : nat) (state : State)
    (lambda : double) : outcome (Z * State) :=
  match e with
  | philox4x32_10 | mrg32k3a | xorwow =>
      poisson_distribution fuel state lambda
  | mtgp32 | sobol32 =>
      _poisson_distribution fuel state lambda
  end.

(** The braced initialiser evaluates its four elements left to right. *)
Definition rocrand_poisson4 (fuel : nat) (state : State) (lambda : double)
    : outcome (uint4 * State) :=
  ' (a, state) <- poisson_distribution fuel state lambda ;;
  ' (b, state) <- poisson_distribution fuel state lambda ;;
  ' (c, state) <- poisson_distribution fuel state lambda ;;
  ' (d, state) <- poisson_distribution fuel state lambda ;;
  Ret (Uint4 a b c d, state).

End Api.

(* ================================================================== *)
(** * The algorithms as the design document words them *)
(* ================================================================== *)

Section Described.

Context {M : Libm} {State : Type} {G : Generator State}.

#[local] Open Scope double_scope.

(** ** Algorithm PA, step by step *)

Section PA.

Variable lambda : double.

(** Precomputed per call. *)
Definition pa_c : double := d_0_767 - d_3_36 / lambda.
Definition pa_beta : double := ROCRAND_PI_DOUBLE / sqrt (d_3 * lambda).
Definition pa_alpha : double := pa_beta * lambda.
Definition pa_k : double := log pa_c - lambda - log pa_beta.
Definition pa_log_lambda : double := log lambda.

(** Step 1: the candidate of a draw [u]; step 2: its rounding. *)
Definition pa_candidate (u : double) : double :=
  (pa_alpha - log ((d_1 - u) / u)) / pa_beta.
Definition pa_nearest (u : double) : double :=
  floor (pa_candidate u + d_0_5).

(** 0 for n <= 1 and lgamma(n+1) otherwise. *)
Definition pa_log_factorial (n : double) : double :=
  if n <=? d_1 then d_0 else lgamma (n + d_1).

(** Steps 3 and 4: the acceptance test of draws [u] and [v]. *)
Definition pa_accepts (u v : double) : bool :=
  let y := pa_alpha - pa_beta * pa_candidate u in
  let t := d_1 + exp y in
  y + log (v / (t * t))
    <=? pa_k + pa_nearest u * pa_log_lambda
        - pa_log_factorial (pa_nearest u).

(** The runs of the rejection loop from a state: an iteration whose
    n is negative takes one draw and restarts; one whose test fails
    takes two draws and restarts; one whose test passes takes two
    draws and returns n as an unsigned integer. *)
Inductive pa_run : State -> outcome (Z * State) -> Prop :=
| pa_negative st u st1 o :
    rocrand_uniform_double st = (u, st1) ->
    (pa_nearest u <? d_0) = true ->
    pa_run st1 o ->
    pa_run st o
| pa_rejected st u st1 v st2 o :
    rocrand_uniform_double st = (u, st1) ->
    (pa_nearest u <? d_0) = false ->
    rocrand_uniform_double st1 = (v, st2) ->
    pa_accepts u v = false ->
    pa_run st2 o ->
    pa_run st o
| pa_accepted st u st1 v st2 :
    rocrand_uniform_double st = (u, st1) ->
    (pa_nearest u <? d_0) = false ->
    rocrand_uniform_double st1 = (v, st2) ->
    pa_accepts u v = true ->
    pa_run st (r <- static_cast_uint (pa_nearest u) ;; Ret (r, st2)).

End PA.

(** ** Successive single-sample calls *)

(** [n] calls of [poisson_distribution] one after the other on the
    same state, with the values in call order. *)
Fixpoint sequential_samples (n : nat) (fuel : nat) (state : State)
    (lambda : double) : outcome (list Z * State) :=
  match n with
  | O => Ret ([], state)
  | S n' =>
      ' (a, state) <- poisson_distribution fuel state lambda ;;
      ' (rest, state) <- sequential_samples n' fuel state lambda ;;
      Ret (a :: rest, state)
  end.

(** ** Knuth's method *)

(** [n] draws are taken until the running product, started at 1, first
    fails to exceed [limit]. *)
Definition first_failure (n : nat) (limit : double) (st : State) : Prop :=
  (1 <= n)%nat
  /\ (forall i, (1 <= i < n)%nat ->
        (running_product i d_1 st >? limit) = true)
  /\ (running_product n d_1 st >? limit) = false.

(** Every uniform draw from [st] on lies in [0, 1). *)
Definition draws_in_unit_interval (st : State) : Prop :=
  forall i, let u := fst (rocrand_uniform_double (uniform_draws i st)) in
            (d_0 <=? u) = true /\ (u <? d_1) = true.

(** For lambda in (0, 64) and draws in [0, 1): the call returns the
    number of draws taken minus one, and has taken exactly those. *)
Definition knuth_returns_draws_minus_one (st : State) (lambda : double)
    : Prop :=
  (d_0 <? lambda) = true ->
  (lambda <? lambda_threshold_small) = true ->
  draws_in_unit_interval st ->
  forall n, first_failure n (exp (- lambda)) st ->
    exists fuel,
      poisson_distribution_small fuel st lambda
      = Ret ((Z.of_nat n - 1)%Z, uniform_draws n st).

(** ** Conversions to unsigned int *)

(** The sampler [rocrand_poisson] on engine [e] hands [lambda] to. *)
Inductive sampler : Type :=
| to_small | to_large | to_huge | to_itr.

Definition route (e : engine) (lambda : double) : sampler :=
  match e with
  | philox4x32_10 | mrg32k3a | xorwow =>
      if lambda <? lambda_threshold_small then to_small
      else if lambda <=? lambda_threshold_huge then to_large
      else to_huge
  | mtgp32 | sobol32 =>
      if lambda <? d_1000 then to_itr else to_huge
  end.

(** Whether [rocrand_poisson] on engine [e] takes the normal
    approximation at [lambda]. *)
Definition routed_to_huge (e : engine) (lambda : double) : bool :=
  match e with
  | philox4x32_10 | mrg32k3a | xorwow =>
      negb (lambda <? lambda_threshold_small)
      && negb (lambda <=? lambda_threshold_huge)
  | mtgp32 | sobol32 => negb (lambda <? d_1000)
  end.

(** The double the normal approximation converts to unsigned int. *)
Definition huge_operand (st : State) (lambda : double) : double :=
  round (sqrt lambda * fst (rocrand_normal_double st) + lambda).

(** The double is -1 or less, or minus infinity: truncated toward zero
    it is a negative integer. *)
Definition truncates_below_zero (d : double) : Prop :=
  match trunc d with
  | Some t => (t < 0)%Z
  | None => d = S754_infinity true
  end.

(** For lambda > 0, the normal approximation staying in range: no path
    converts a negative double, a returned value is a natural number,
    and Knuth's counter is at least 1 at loop exit, so that k - 1 does
    not wrap. *)
Definition never_negative (st : State) (lambda : double) : Prop :=
  (d_0 <? lambda) = true ->
  (forall e, routed_to_huge e lambda = true ->
     (huge_operand st lambda <? d_0) = false) ->
  (forall e fuel,
     rocrand_poisson e fuel st lambda <> Undefined NegativeToUnsigned)
  /\ (forall e fuel v st',
        rocrand_poisson e fuel st lambda = Ret (v, st') -> (0 <= v)%Z)
  /\ (forall fuel k st',
        small_loop fuel (exp (- lambda)) 0%Z d_1 st = Ret (k, st') ->
        (1 <= k /\ uint_wrap (k - 1) = k - 1)%Z).

(** ** The chunk survival factor *)

(** exp(-500) while the chunk starting at [pow] lies fully below
    lambda, exp(pow - lambda) for the final partial chunk. *)
Definition described_chunk_factor (lambda : double) (pow : Z) : double :=
  if of_int pow + d_500 <=? lambda
  then exp (- d_500)
  else exp (of_int pow - lambda).

End Described.

(* ================================================================== *)
(** * Concrete generators and math tables *)
(* ================================================================== *)

Module Bench.

(** ** Math functions *)

Fixpoint lookup (table : list (double * double)) (a : double) : double :=
  match table with
  | [] => S754_nan
  | (key, value) :: rest =>
      if SFeqb key a then value else lookup rest a
  end.

(** exp, correctly rounded, at the arguments the runs below reach:
    -500, -200, -1, -0.1, -2^-20 and -(2^-21 + 2^-43). *)
Definition exp_table : list (double * double) :=
  [ (S754_finite true 8796093022208000 (-44),
     S754_finite false 7079061613724557 (-774));
    (S754_finite true 7036874417766400 (-45),
     S754_finite false 6199149938953466 (-341));
    (S754_finite true 4503599627370496 (-52),
     S754_finite false 6627126856707896 (-54));
    (S754_finite true 7205759403792794 (-56),
     S754_finite false 8150050917395258 (-53));
    (S754_finite true 4503599627370496 (-72),
     S754_finite false 9007190664810496 (-53));
    (S754_finite true 4503600701112320 (-73),
     S754_finite false 9007194959773696 (-53)) ].

(** The integer [z] as a double, keeping the sign of a zero result. *)
Definition integral (s : bool) (z : Z) : double :=
  binary_normalize prec emax z 0 s.

Definition floor_double (d : double) : double :=
  match d with
  | S754_finite s m e =>
      if 0 <=? e then d
      else integral s (Z.shiftr (if s then Zneg m else Zpos m) (- e))
  | _ => d
  end.

(** Nearest integer, halves away from zero. *)
Definition round_double (d : double) : double :=
  match d with
  | S754_finite s m e =>
      if 0 <=? e then d
      else
        let a := Z.shiftr (Zpos m + 2 ^ (- e - 1)) (- e) in
        integral s (if s then - a else a)
  | _ => d
  end.

(** Pi to double precision, for [ROCRAND_PI_DOUBLE]. *)
Definition pi_double : double :=
  Eval vm_compute in lit 3.1415926535897932.

Definition table_Libm : Libm := {|
  exp := lookup exp_table;
  log := lookup [];
  lgamma := lookup [];
  sqrt := SFsqrt prec emax;
  floor := floor_double;
  round := round_double;
  ROCRAND_PI_DOUBLE := pi_double
|}.

(** ** A generator replaying given draws *)

Record script : Type := Script {
  uniforms : list double;
  normals : list double
}.

#[global] Instance script_Generator : Generator script := {
  rocrand_uniform_double s :=
    match uniforms s with
    | [] => (d_0, s)
    | u :: rest => (u, Script rest (normals s))
    end;
  rocrand_normal_double s :=
    match normals s with
    | [] => (d_0, s)
    | z :: rest => (z, Script (uniforms s) rest)
    end
}.

(** ** A generator stuck just below one *)

(** 1 - 2^-53, the largest double below 1. *)
Definition below_one : double := S754_finite false (2 ^ 53 - 1) (-53).

(** Every uniform draw is [below_one]; the state is the number of
    draws made. *)
Record steady : Type := Steady { drawn : Z }.

#[global] Instance steady_Generator : Generator steady := {
  rocrand_uniform_double s := (below_one, Steady (drawn s + 1));
  rocrand_normal_double s := (d_0, Steady (drawn s + 1))
}.

(** 1 - i * 2^-53, for 0 < i <= 2^52. *)
Definition one_minus (i : Z) : double :=
  S754_finite false (Z.to_pos (2 ^ 53 - i)) (-53).

(** Some doubles by value. *)
Definition d_0_1 : double := Eval vm_compute in lit 0.1.
Definition d_0_25 : double := Eval vm_compute in lit 0.25.
Definition d_0_9 : double := Eval vm_compute in lit 0.9.
Definition d_700 : double := Eval vm_compute in lit 700.
Definition d_5000 : double := Eval vm_compute in lit 5000.
Definition d_2p_20 : double := S754_finite false 4503599627370496 (-72).
Definition d_2p_21_43 : double := S754_finite false 4503600701112320 (-73).

End Bench.

(* ================================================================== *)
(** * Two runs of the chunked sampler *)
(* ================================================================== *)

Module Run.

Import Bench.

(** The variables an outcome carries. *)
Definition or_init (o : outcome itr_vars) : itr_vars :=
  match o with Ret v => v | _ => itr_init end.

Definition passes_or_init (o : option itr_vars) : itr_vars :=
  match o with Some v => v | None => itr_init end.

(** [upow] and [ex] as [poisson_itr] computes them before its loop. *)
Definition upow : double := Eval vm_compute in (of_int 0 + d_500)%dbl.
Definition ex : double := Eval vm_compute in @exp table_Libm (- d_500)%dbl.

(** The run at lambda = 700 with the draw 0.5: after the head of the
    first outer iteration. *)
Definition chunk1_start : itr_vars := Eval vm_compute in
  or_init (itr_chunk (M := table_Libm) d_700 upow ex itr_init).

(** After the 246 passes of the first inner loop. *)
Definition chunk1_end : itr_vars := Eval vm_compute in
  passes_or_init (itr_inner_passes 246 d_700 d_0_5 chunk1_start).

(** After the head of the second outer iteration. *)
Definition chunk2_start : itr_vars := Eval vm_compute in
  or_init (itr_chunk (M := table_Libm) d_700 upow ex chunk1_end).

(** After 1376 passes of the second inner loop: x has underflowed to +0
    and y stands at about 5.1e-131. *)
Definition stalled : itr_vars := Eval vm_compute in
  passes_or_init (itr_inner_passes 1376 d_700 d_0_5 chunk2_start).

(** The run at lambda = 0.1 with the draw 1 - 2^-53: after the head of
    the only outer iteration, and after 122 passes of the inner loop,
    where x has underflowed to +0 and y stands at 1 - 2^-52. *)
Definition near_one_start : itr_vars := Eval vm_compute in
  or_init (itr_chunk (M := table_Libm) d_0_1 upow ex itr_init).
Definition near_one_stalled : itr_vars := Eval vm_compute in
  passes_or_init (itr_inner_passes 122 d_0_1 below_one near_one_start).

End Run.

(* ================================================================== *)
(** * A math table for the rejection method *)
(* ================================================================== *)

Module Tables.

Import Bench.

Definition d_100 : double := Eval vm_compute in lit 100.

(** log, correctly rounded, at the arguments the run of
    [poisson_distribution_large] at lambda = 100 with the draws 0.5 and
    0.5 reaches: c = 0.767 - 3.36 / 100, beta = pi / sqrt 300, 100, 1
    and 0.125. *)
Definition log_table : list (double * double) :=
  [ (S754_finite false 6605879933427044 (-53),
     S754_finite true 5585616879988558 (-54));
    (S754_finite false 6534900912712052 (-55),
     S754_finite true 7688371226380788 (-52));
    (S754_finite false 7036874417766400 (-46),
     S754_finite false 5184960683398422 (-50));
    (S754_finite false 4503599627370496 (-52),
     S754_zero false);
    (S754_finite false 4503599627370496 (-55),
     S754_finite true 4682486076124019 (-51)) ].

(** lgamma, correctly rounded, at 101. *)
Definition lgamma_table : list (double * double) :=
  [ (S754_finite false 7107243161944064 (-46),
     S754_finite false 6398970766453174 (-44)) ].

(** exp at 0 as well. *)
Definition exp_table_0 : list (double * double) :=
  (S754_zero false, S754_finite false 4503599627370496 (-52)) :: exp_table.

Definition sample_Libm : Libm := {|
  exp := lookup exp_table_0;
  log := lookup log_table;
  lgamma := lookup lgamma_table;
  sqrt := SFsqrt prec emax;
  floor := floor_double;
  round := round_double;
  ROCRAND_PI_DOUBLE := pi_double
|}.

(** The variables of [poisson_itr] at lambda = 1 with the draw 0.5, after
    the head of the outer loop and after the one pass of the inner loop
    that follows. *)
Definition one_start : itr_vars := Eval vm_compute in
  let L0 := @exp table_Libm (of_int 0 - d_1)%dbl in
  ItrVars L0 (d_1 * L0)%dbl (d_1 * L0)%dbl 0 500.
Definition one_pass : itr_vars := Eval vm_compute in
  Run.passes_or_init (itr_inner_passes 1 d_1 d_0_5 one_start).

End Tables.

(* ================================================================== *)
(** * The benchmark harness (benchmark/benchmark_rocrand_generate.cpp) *)
(* ================================================================== *)

(** The program against its devices.  The HIP and rocRAND calls are
    recorded with the status they return, which a function of the events
    so far supplies; the clock is read without its value; what is printed
    is recorded by content.  The command line is taken as parsed. *)

Module Benchmark.

Import String Ascii.
#[local] Open Scope Z_scope.

(** ** Types of the harness *)

(** [size_t] arithmetic is modulo 2^64. *)
Definition SIZE_MODULUS : Z := 2 ^ 64.
Definition size_wrap (z : Z) : Z := z mod SIZE_MODULUS.

Definition DEFAULT_RAND_N : Z := 1024 * 1024 * 128.

(** The values of [rocrand_rng_type] the harness uses. *)
Inductive rng_type_t : Type :=
| ROCRAND_RNG_PSEUDO_XORWOW
| ROCRAND_RNG_PSEUDO_MRG32K3A
| ROCRAND_RNG_PSEUDO_PHILOX4_32_10
| ROCRAND_RNG_QUASI_SOBOL32.

(** The element types [T] of [run_benchmark<T>]. *)
Inductive element : Type := unsigned_int | float_ | double_.

Definition sizeof (T : element) : Z :=
  match T with
  | unsigned_int => 4
  | float_ => 4
  | double_ => 8
  end.

(** The generate calls wrapped by the lambdas of [run_benchmarks], with
    the parameters they fix or capture. *)
Inductive generate_func_type : Type :=
| rocrand_generate
| rocrand_generate_uniform
| rocrand_generate_uniform_double
| rocrand_generate_normal (mean stddev : double)
| rocrand_generate_normal_double (mean stddev : double)
| rocrand_generate_log_normal (mean stddev : double)
| rocrand_generate_log_normal_double (mean stddev : double)
| rocrand_generate_poisson (lambda : double).

(** The HIP and rocRAND calls of the harness.  The data pointer and the
    generator handle are those of the enclosing [run_benchmark]. *)
Inductive api_call : Type :=
| hipMalloc (bytes : Z)
| rocrand_create_generator (rng_type : rng_type_t)
| rocrand_set_quasi_random_generator_dimensions (dimensions : Z)
| generate (generate_func : generate_func_type) (size : Z)
| hipDeviceSynchronize
| rocrand_destroy_generator
| hipFree.

(** What is written to [std::cout], by content. *)
Inductive output : Type :=
| HIP_error (error line : Z)
| ROCRAND_error (status line : Z)
| lambda_line (lambda : double)
| throughput_line (T : element) (trials size : Z)
| options_text (distribution_desc engine_desc : string)
| title_line
| engine_line (engine : string)
| distribution_line (distribution : string)
| empty_line.

Inductive event : Type :=
| Called (c : api_call) (status : Z)
| Clock
| Printed (o : output).

(** The status constants of hip_runtime.h and rocrand.h. *)
Class Status : Type := {
  hipSuccess : Z;
  ROCRAND_STATUS_SUCCESS : Z;
  ROCRAND_STATUS_TYPE_ERROR : Z
}.

(** The parsed command line, defaults applied. *)
Record variables_map : Type := {
  vm_help : bool;
  vm_size : Z;
  vm_dimensions : Z;
  vm_trials : Z;
  vm_dis : list string;
  vm_engine : list string;
  vm_lambda : list double
}.

(** ** Running a program against the devices *)

Inductive result (A : Type) : Type :=
| Next (a : A)
| Exit (code : Z)
| Indeterminate.

Arguments Next {A} a.
Arguments Exit {A} code.
Arguments Indeterminate {A}.

(** A program maps the events so far to its result and the events it
    adds. *)
Definition io (A : Type) : Type := list event -> result A * list event.

Definition io_ret {A : Type} (a : A) : io A := fun _ => (Next a, []).

Definition io_bind {A B : Type} (m : io A) (k : A -> io B) : io B :=
  fun h =>
    let (r, t) := m h in
    match r with
    | Next a => let (r', t') := k a (h ++ t) in (r', t ++ t')
    | Exit code => (Exit code, t)
    | Indeterminate => (Indeterminate, t)
    end.

Definition exit {A : Type} (code : Z) : io A := fun _ => (Exit code, []).
Definition indeterminate {A : Type} : io A := fun _ => (Indeterminate, []).
Definition print (o : output) : io unit := fun _ => (Next tt, [Printed o]).
Definition now : io unit := fun _ => (Next tt, [Clock]).

Declare Scope io_scope.
Delimit Scope io_scope with io.
Notation "x <- m ;; k" := (io_bind m (fun x => k))
  (at level 61, m at next level, right associativity) : io_scope.
Notation "m ;;; k" := (io_bind m (fun _ => k))
  (at level 61, right associativity) : io_scope.

Fixpoint for_n (n : nat) (body : io unit) : io unit :=
  match n with
  | O => io_ret tt
  | S n' => (body ;;; for_n n' body)%io
  end.

Fixpoint for_each {A : Type} (l : list A) (body : A -> io unit) : io unit :=
  match l with
  | [] => io_ret tt
  | a :: l' => (body a ;;; for_each l' body)%io
  end.

Definition when (b : bool) (m : io unit) : io unit :=
  if b then m else io_ret tt.

Section Harness.

Context {codes : Status}.

(** The status each call returns, given the events so far. *)
Variable respond : list event -> api_call -> Z.

Definition call (c : api_call) : io Z :=
  fun h => (Next (respond h c), [Called c (respond h c)]).

#[local] Open Scope io_scope.

Definition HIP_CHECK (line : Z) (condition : io Z) : io unit :=
  error <- condition ;;
  if error =? hipSuccess then io_ret tt
  else print (HIP_error error line) ;;; exit error.

Definition ROCRAND_CHECK (line : Z) (condition : io Z) : io unit :=
  _status <- condition ;;
  if _status =? ROCRAND_STATUS_SUCCESS then io_ret tt
  else print (ROCRAND_error _status line) ;;; exit _status.

Definition run_benchmark (T : element) (vm : variables_map)
    (rng_type : rng_type_t) (generate_func : generate_func_type) : io unit :=
  let size := vm_size vm in
  let trials := vm_trials vm in
  HIP_CHECK 71 (call (hipMalloc (size_wrap (size * sizeof T)))) ;;;
  ROCRAND_CHECK 74 (call (rocrand_create_generator rng_type)) ;;;
  let dimensions := vm_dimensions vm in
  status <- call (rocrand_set_quasi_random_generator_dimensions dimensions) ;;
  when (negb (status =? ROCRAND_STATUS_TYPE_ERROR))
    (ROCRAND_CHECK 80 (io_ret status)) ;;;
  for_n 5 (ROCRAND_CHECK 86 (call (generate generate_func size))) ;;;
  HIP_CHECK 88 (call hipDeviceSynchronize) ;;;
  now ;;;
  for_n (Z.to_nat trials)
    (ROCRAND_CHECK 94 (call (generate generate_func size))) ;;;
  HIP_CHECK 96 (call hipDeviceSynchronize) ;;;
  now ;;;
  print (throughput_line T trials size) ;;;
  ROCRAND_CHECK 115 (call rocrand_destroy_generator) ;;;
  HIP_CHECK 116 (call hipFree).

Definition run_benchmarks (vm : variables_map) (rng_type : rng_type_t)
    (distribution : string) : io unit :=
  when (distribution =? "uniform-uint")%string
    (run_benchmark unsigned_int vm rng_type rocrand_generate) ;;;
  when (distribution =? "uniform-float")%string
    (run_benchmark float_ vm rng_type rocrand_generate_uniform) ;;;
  when (distribution =? "uniform-double")%string
    (run_benchmark double_ vm rng_type rocrand_generate_uniform_double) ;;;
  when (distribution =? "normal-float")%string
    (run_benchmark float_ vm rng_type (rocrand_generate_normal d_0 d_1)) ;;;
  when (distribution =? "normal-double")%string
    (run_benchmark double_ vm rng_type
       (rocrand_generate_normal_double d_0 d_1)) ;;;
  when (distribution =? "log-normal-float")%string
    (run_benchmark float_ vm rng_type
       (rocrand_generate_log_normal d_0 d_1)) ;;;
  when (distribution =? "log-normal-double")%string
    (run_benchmark double_ vm rng_type
       (rocrand_generate_log_normal_double d_0 d_1)) ;;;
  when (distribution =? "poisson")%string
    (for_each (vm_lambda vm) (fun lambda =>
       print (lambda_line lambda) ;;;
       run_benchmark unsigned_int vm rng_type
         (rocrand_generate_poisson lambda))).

End Harness.

Definition all_engines : list string :=
  ["xorwow"; "mrg32k3a"; "philox"; "sobol32"]%string.

Definition all_distributions : list string :=
  ["uniform-uint"; "uniform-float"; "uniform-double"; "normal-float";
   "normal-double"; "log-normal-float"; "log-normal-double";
   "poisson"]%string.

(** A line feed. *)
Definition LF : string := String (ascii_of_nat 10) EmptyString.

(** [std::accumulate] over the names, from the empty string. *)
Definition accumulate_names (names : list string) : string :=
  fold_left (fun a b => ((a ++ (LF ++ "   ")) ++ b)%string) names
    EmptyString.

Definition distribution_desc : string :=
  (("space-separated list of distributions:"
    ++ accumulate_names all_distributions) ++ (LF ++ "or all"))%string.

Definition engine_desc : string :=
  (("space-separated list of random number engines:"
    ++ accumulate_names all_engines) ++ (LF ++ "or all"))%string.

(** [std::find(v.begin(), v.end(), s) != v.end()] *)
Definition found (s : string) (v : list string) : bool :=
  existsb (fun x => (x =? s)%string) v.

(** The engines, or the distributions, to run: all of them when "all"
    was asked for, otherwise the known ones that were asked for. *)
Definition selected (asked all : list string) : list string :=
  if found "all" asked then all
  else filter (fun e => found e asked) all.

(** The if / else-if chain of [main]; [None] when no branch assigns
    [rng_type]. *)
Definition rng_type_of (engine : string) : option rng_type_t :=
  if (engine =? "xorwow")%string then Some ROCRAND_RNG_PSEUDO_XORWOW
  else if (engine =? "mrg32k3a")%string then Some ROCRAND_RNG_PSEUDO_MRG32K3A
  else if (engine =? "philox")%string
  then Some ROCRAND_RNG_PSEUDO_PHILOX4_32_10
  else if (engine =? "sobol32")%string then Some ROCRAND_RNG_QUASI_SOBOL32
  else None.

Section Main.

Context {codes : Status}.
Variable respond : list event -> api_call -> Z.

#[local] Open Scope io_scope.

Definition main (vm : variables_map) : io Z :=
  if vm_help vm then
    print (options_text distribution_desc engine_desc) ;;; io_ret 0
  else
    let engines := selected (vm_engine vm) all_engines in
    let distributions := selected (vm_dis vm) all_distributions in
    print title_line ;;;
    for_each engines (fun engine =>
      print (engine_line engine) ;;;
      let rng_type := rng_type_of engine in
      for_each distributions (fun distribution =>
        print (distribution_line distribution) ;;;
        match rng_type with
        | Some rng_type => run_benchmarks respond vm rng_type distribution
        | None => indeterminate
        end) ;;;
      print empty_line) ;;;
    io_ret 0.

End Main.

(** ** What the theorems speak of *)

Section Described.

Context {codes : Status}.

(** The statuses that let the harness carry on after a call. *)
Definition accepted (c : api_call) (status : Z) : bool :=
  match c with
  | hipMalloc _ | hipDeviceSynchronize | hipFree => status =? hipSuccess
  | rocrand_set_quasi_random_generator_dimensions _ =>
      (status =? ROCRAND_STATUS_SUCCESS)
      || (status =? ROCRAND_STATUS_TYPE_ERROR)
  | _ => status =? ROCRAND_STATUS_SUCCESS
  end.

(** Devices that never fail. *)
Definition accepting (respond : list event -> api_call -> Z) : Prop :=
  forall h c, accepted c (respond h c) = true.

(** The message of the check around a call. *)
Definition error_output (c : api_call) (status line : Z) : output :=
  match c with
  | hipMalloc _ | hipDeviceSynchronize | hipFree => HIP_error status line
  | _ => ROCRAND_error status line
  end.

(** The events end with a call whose status is not accepted and with the
    message that reports it. *)
Definition failed_at (code : Z) (t : list event) : Prop :=
  exists pre c line,
    t = pre ++ [Called c code; Printed (error_output c code line)]
    /\ accepted c code = false.

(** The events of one benchmark that runs to its end, [s] being the
    status of the call that sets the dimensions. *)
Definition benchmark_trace (T : element) (vm : variables_map)
    (rng_type : rng_type_t) (generate_func : generate_func_type) (s : Z)
    : list event :=
  [Called (hipMalloc (size_wrap (vm_size vm * sizeof T))) hipSuccess;
   Called (rocrand_create_generator rng_type) ROCRAND_STATUS_SUCCESS;
   Called (rocrand_set_quasi_random_generator_dimensions (vm_dimensions vm))
     s]
  ++ repeat (Called (generate generate_func (vm_size vm))
               ROCRAND_STATUS_SUCCESS) 5
  ++ [Called hipDeviceSynchronize hipSuccess; Clock]
  ++ repeat (Called (generate generate_func (vm_size vm))
               ROCRAND_STATUS_SUCCESS) (Z.to_nat (vm_trials vm))
  ++ [Called hipDeviceSynchronize hipSuccess; Clock;
      Printed (throughput_line T (vm_trials vm) (vm_size vm));
      Called rocrand_destroy_generator ROCRAND_STATUS_SUCCESS;
      Called hipFree hipSuccess].

(** How a program may end: with a value that satisfies [P], or by an
    exit whose code is the status of the call that failed. *)
Definition ends_well {A : Type} (P : A -> Prop)
    (r : result A * list event) : Prop :=
  match r with
  | (Next a, _) => P a
  | (Exit code, t) => failed_at code t
  | (Indeterminate, _) => False
  end.

Definition checked {A : Type} (P : A -> Prop) (m : io A) : Prop :=
  forall h, ends_well P (m h).

End Described.

Definition is_throughput (e : event) : bool :=
  match e with
  | Printed (throughput_line _ _ _) => true
  | _ => false
  end.

(** The number of measurements reported. *)
Definition throughput_lines (t : list event) : nat :=
  List.length (filter is_throughput t).

Definition is_generate (e : event) : bool :=
  match e with
  | Called (generate _ _) _ => true
  | _ => false
  end.

Definition generate_calls (t : list event) : nat :=
  List.length (filter is_generate t).

(** The program returns [a] and reports [n] measurements, whatever came
    before. *)
Definition yields {A : Type} (m : io A) (a : A) (n : nat) : Prop :=
  forall h, exists t, m h = (Next a, t) /\ throughput_lines t = n.

(** The measurements a distribution name stands for. *)
Definition jobs (vm : variables_map) (distribution : string) : nat :=
  if (distribution =? "poisson")%string then List.length (vm_lambda vm)
  else if found distribution all_distributions then 1%nat
  else 0%nat.

(** The names after their separators, one after the other. *)
Fixpoint listing (names : list string) : string :=
  match names with
  | [] => EmptyString
  | n :: names' => ((LF ++ "   ") ++ n) ++ listing names'
  end%string.

(** Status values for the examples: success is 0 for both libraries, the
    type error is 103. *)
Definition sample_Status : Status :=
  {| hipSuccess := 0;
     ROCRAND_STATUS_SUCCESS := 0;
     ROCRAND_STATUS_TYPE_ERROR := 103 |}.

(** Devices for the examples: a pseudo-random generator has no dimensions
    to set, everything else succeeds. *)
Definition sample_respond (h : list event) (c : api_call) : Z :=
  match c with
  | rocrand_set_quasi_random_generator_dimensions _ => 103
  | _ => 0
  end.

Definition sample_vm : variables_map :=
  {| vm_help := false;
     vm_size := 1024;
     vm_dimensions := 1;
     vm_trials := 2;
     vm_dis := ["poisson"; "uniform-uint"]%string;
     vm_engine := ["philox"; "xorwow"; "philox"]%string;
     vm_lambda := [d_1; d_500] |}.

End Benchmark.

(* ================================================================== *)
(** * Rounding records *)
(* ================================================================== *)

(** The shift record reached from an exact non-negative mantissa [m]
    after [n] one-bit right shifts: the quotient, the last bit shifted
    out and whether a lower one was set. *)
Definition shifted (m n : Z) : shr_record :=
  if n =? 0 then Build_shr_record m false false
  else Build_shr_record (m / 2 ^ n) (Z.testbit m (n - 1))
         (negb (m mod 2 ^ (n - 1) =? 0)).

(* ================================================================== *)
(** * Comparisons of doubles *)
(* ================================================================== *)

Lemma SFcompare_swap (a b : double) (c : comparison) :
  SFcompare a b = Some c -> SFcompare b a = Some (CompOpp c).
Proof.
  destruct a as [sa|sa| |sa ma ea], b as [sb|sb| |sb mb eb]; simpl;
    try discriminate;
    try (intros E; injection E as <-;
         repeat match goal with s : bool |- _ => destruct s end;
         reflexivity).
  intros E; injection E as <-.
  rewrite (Z.compare_antisym ea eb).
  change (Pos.compare_cont Eq mb ma) with (Pos.compare mb ma).
  change (Pos.compare_cont Eq ma mb) with (Pos.compare ma mb).
  rewrite (Pos.compare_antisym ma mb).
  destruct sa, sb, (ea ?= eb), (ma ?= mb)%positive; reflexivity.
Qed.

(** [a <= b] excludes [b < a]. *)
Lemma leb_true_ltb_false (a b : double) :
  (a <=? b)%dbl = true -> (b <? a)%dbl = false.
Proof.
  unfold Double.leb, Double.ltb, SFleb, SFltb.
  destruct (SFcompare a b) as [c|] eqn:E; [|discriminate].
  rewrite (SFcompare_swap a b c E).
  destruct c; simpl; congruence.
Qed.

(** [a < b] excludes [b <= a]. *)
Lemma ltb_true_leb_false (a b : double) :
  (a <? b)%dbl = true -> (b <=? a)%dbl = false.
Proof.
  unfold Double.leb, Double.ltb, SFleb, SFltb.
  destruct (SFcompare a b) as [c|] eqn:E; [|discriminate].
  rewrite (SFcompare_swap a b c E).
  destruct c; simpl; congruence.
Qed.

(** No double is both below 64.0 and above 4000.0. *)
Lemma small_huge_disjoint (lambda : double) :
  (lambda <? lambda_threshold_small)%dbl = true ->
  (lambda_threshold_huge <? lambda)%dbl = true -> False.
Proof.
  unfold Double.ltb, SFltb, lambda_threshold_small, lambda_threshold_huge.
  destruct lambda as [s|s| |s m e]; cbn [SFcompare]; try discriminate;
    try (destruct s; discriminate).
  destruct s; [discriminate|].
  destruct (Z.compare_spec e (-46)), (Z.compare_spec (-41) e);
    try discriminate; lia.
Qed.

(* ================================================================== *)
(** * The dispatchers *)
(* ================================================================== *)

Section Dispatch.

Context {M : Libm} {State : Type} {G : Generator State}.

(** C1.  The standard dispatcher routes by lambda alone: below 64.0 it
    is the Small-Lambda (Knuth) sampler, from 64.0 to 4000.0 inclusive
    the Large-Lambda (Atkinson) sampler, above 4000.0 the Huge-Lambda
    (normal approximation) sampler; in each case the call is the
    chosen sampler's call on the same state, result unchanged. *)
Theorem poisson_distribution_routes (fuel : nat) (state : State)
    (lambda : double) :
  ((lambda <? lambda_threshold_small)%dbl = true ->
     poisson_distribution fuel state lambda
     = poisson_distribution_small fuel state lambda)
  /\ ((lambda_threshold_small <=? lambda)%dbl = true ->
      (lambda <=? lambda_threshold_huge)%dbl = true ->
     poisson_distribution fuel state lambda
     = poisson_distribution_large fuel state lambda)
  /\ ((lambda >? lambda_threshold_huge)%dbl = true ->
     poisson_distribution fuel state lambda
     = poisson_distribution_huge state lambda).
Proof.
  unfold poisson_distribution.
  split; [|split].
  - intros ->. reflexivity.
  - intros Hlo Hhi.
    rewrite (leb_true_ltb_false _ _ Hlo), Hhi. reflexivity.
  - intros Hgt. unfold Double.gtb in Hgt.
    rewrite (ltb_true_leb_false _ _ Hgt).
    destruct (lambda <? lambda_threshold_small)%dbl eqn:Hlt;
      [|reflexivity].
    exfalso. exact (small_huge_disjoint lambda Hlt Hgt).
Qed.

(** C2.  The chunked dispatcher calls [poisson_itr] below 1000.0 and
    the Huge-Lambda sampler at or above 1000.0 (so at 1000.0 itself),
    result unchanged; the MTGP32 and SOBOL32 overloads of
    [rocrand_poisson] are this dispatcher. *)
Theorem chunked_distribution_routes (fuel : nat) (state : State)
    (lambda : double) :
  ((lambda <? d_1000)%dbl = true ->
     _poisson_distribution fuel state lambda
     = poisson_itr fuel state lambda)
  /\ ((d_1000 <=? lambda)%dbl = true ->
     _poisson_distribution fuel state lambda
     = poisson_distribution_huge state lambda)
  /\ _poisson_distribution fuel state d_1000
     = poisson_distribution_huge state d_1000
  /\ rocrand_poisson mtgp32 fuel state lambda
     = _poisson_distribution fuel state lambda
  /\ rocrand_poisson sobol32 fuel state lambda
     = _poisson_distribution fuel state lambda.
Proof.
  unfold _poisson_distribution.
  repeat split.
  - intros ->. reflexivity.
  - intros Hge. rewrite (leb_true_ltb_false _ _ Hge). reflexivity.
Qed.

End Dispatch.

(** The three routes at lambda = 1, 700 and 5000. *)
Lemma poisson_distribution_routes_witness :
  let st := Bench.Script [] [] in
  poisson_distribution (M := Bench.table_Libm) 1 st d_1
  = poisson_distribution_small (M := Bench.table_Libm) 1 st d_1
  /\ poisson_distribution (M := Bench.table_Libm) 1 st Bench.d_700
     = poisson_distribution_large (M := Bench.table_Libm) 1 st Bench.d_700
  /\ poisson_distribution (M := Bench.table_Libm) 1 st Bench.d_5000
     = poisson_distribution_huge (M := Bench.table_Libm) st Bench.d_5000.
Proof.
  intros st. split; [|split].
  - exact (proj1 (poisson_distribution_routes (M := Bench.table_Libm)
                    1 st d_1) eq_refl).
  - exact (proj1 (proj2 (poisson_distribution_routes
                           (M := Bench.table_Libm) 1 st Bench.d_700))
             eq_refl eq_refl).
  - exact (proj2 (proj2 (poisson_distribution_routes
                           (M := Bench.table_Libm) 1 st Bench.d_5000))
             eq_refl).
Defined.

(** The two routes at lambda = 700 and 5000. *)
Lemma chunked_distribution_routes_witness :
  let st := Bench.Script [] [] in
  _poisson_distribution (M := Bench.table_Libm) 1 st Bench.d_700
  = poisson_itr (M := Bench.table_Libm) 1 st Bench.d_700
  /\ _poisson_distribution (M := Bench.table_Libm) 1 st Bench.d_5000
     = poisson_distribution_huge (M := Bench.table_Libm) st Bench.d_5000.
Proof.
  intros st. split.
  - exact (proj1 (chunked_distribution_routes (M := Bench.table_Libm)
                    1 st Bench.d_700) eq_refl).
  - exact (proj1 (proj2 (chunked_distribution_routes
                           (M := Bench.table_Libm) 1 st Bench.d_5000))
             eq_refl).
Defined.

(* ================================================================== *)
(** * The samplers one by one *)
(* ================================================================== *)

Lemma bind_Ret_inv {A B : Type} (m : outcome A) (k : A -> outcome B) (b : B) :
  bind m k = Ret b -> exists a, m = Ret a /\ k a = Ret b.
Proof.
  destruct m as [a| |]; simpl; try discriminate.
  intros E. exists a. split; [reflexivity|exact E].
Qed.

Lemma cast_bind_not_OutOfFuel {A : Type} (d : double) (k : Z -> A) :
  bind (static_cast_uint d) (fun r => Ret (k r)) <> OutOfFuel.
Proof.
  unfold static_cast_uint.
  destruct (trunc d) as [z|].
  - destruct (z <? 0); [discriminate|].
    destruct (z <? UINT_MODULUS); discriminate.
  - destruct d as [s|[|]| |s m e]; discriminate.
Qed.

Section Large.

Context {M : Libm} {State : Type} {G : Generator State}.

(** One iteration of the loop, in the vocabulary of the description. *)
Lemma large_loop_step (lambda : double) (fuel : nat) (st : State) :
  large_loop (S fuel) (pa_alpha lambda) (pa_beta lambda) (pa_k lambda)
    (pa_log_lambda lambda) st
  = let (u, st1) := rocrand_uniform_double st in
    if (pa_nearest lambda u <? d_0)%dbl
    then large_loop fuel (pa_alpha lambda) (pa_beta lambda) (pa_k lambda)
           (pa_log_lambda lambda) st1
    else
      let (v, st2) := rocrand_uniform_double st1 in
      if pa_accepts lambda u v
      then r <- static_cast_uint (pa_nearest lambda u) ;; Ret (r, st2)
      else large_loop fuel (pa_alpha lambda) (pa_beta lambda) (pa_k lambda)
             (pa_log_lambda lambda) st2.
Proof. reflexivity. Qed.

Lemma large_loop_sound (lambda : double) (fuel : nat) :
  forall (st : State) (o : outcome (Z * State)),
    large_loop fuel (pa_alpha lambda) (pa_beta lambda) (pa_k lambda)
      (pa_log_lambda lambda) st = o ->
    o <> OutOfFuel ->
    pa_run lambda st o.
Proof.
  induction fuel as [|fuel IH]; intros st o.
  - simpl. intros <- H. contradiction H. reflexivity.
  - rewrite large_loop_step.
    destruct (rocrand_uniform_double st) as [u st1] eqn:Eu.
    destruct (pa_nearest lambda u <? d_0)%dbl eqn:Eneg.
    + intros Ho Hne.
      apply (pa_negative lambda st u st1 o Eu Eneg).
      apply IH; assumption.
    + destruct (rocrand_uniform_double st1) as [v st2] eqn:Ev.
      destruct (pa_accepts lambda u v) eqn:Eacc.
      * intros <- _.
        apply (pa_accepted lambda st u st1 v st2 Eu Eneg Ev Eacc).
      * intros Ho Hne.
        apply (pa_rejected lambda st u st1 v st2 o Eu Eneg Ev Eacc).
        apply IH; assumption.
Qed.

Lemma large_loop_complete (lambda : double) (st : State)
    (o : outcome (Z * State)) :
  pa_run lambda st o ->
  exists fuel,
    large_loop fuel (pa_alpha lambda) (pa_beta lambda) (pa_k lambda)
      (pa_log_lambda lambda) st = o.
Proof.
  induction 1 as [st u st1 o Eu Eneg _ [fuel IH]
                 |st u st1 v st2 o Eu Eneg Ev Eacc _ [fuel IH]
                 |st u st1 v st2 Eu Eneg Ev Eacc].
  - exists (S fuel). rewrite large_loop_step, Eu, Eneg. exact IH.
  - exists (S fuel). rewrite large_loop_step, Eu, Eneg, Ev, Eacc. exact IH.
  - exists 1%nat. rewrite large_loop_step, Eu, Eneg, Ev, Eacc. reflexivity.
Qed.

Lemma pa_run_not_OutOfFuel (lambda : double) (st : State)
    (o : outcome (Z * State)) :
  pa_run lambda st o -> o <> OutOfFuel.
Proof.
  induction 1; try assumption.
  apply (cast_bind_not_OutOfFuel _ (fun r => (r, st2))).
Qed.

(** C5.  [poisson_distribution_large] is algorithm PA as described:
    with c = 0.767 - 3.36/lambda, beta = pi/sqrt(3 lambda),
    alpha = beta lambda, k = log c - lambda - log beta and
    log_lambda = log lambda computed once, each iteration draws u,
    forms x = (alpha - log((1-u)/u))/beta and n = floor(x + 0.5),
    restarts after that single draw when n < 0, and otherwise draws
    v, sets y = alpha - beta x and t = 1 + exp y, and returns n
    converted to unsigned exactly when
    y + log(v/t^2) <= k + n log_lambda - log_factorial(n),
    log_factorial being 0 for n <= 1 and lgamma(n+1) otherwise.
    The outcomes the code reaches with some fuel are exactly the
    outcomes of the described runs. *)
Theorem poisson_distribution_large_is_PA (st : State) (lambda : double)
    (o : outcome (Z * State)) :
  (exists fuel, poisson_distribution_large fuel st lambda = o
                /\ o <> OutOfFuel)
  <-> pa_run lambda st o.
Proof.
  split.
  - intros [fuel [E Hne]].
    apply (large_loop_sound lambda fuel st o); assumption.
  - intros Hrun.
    destruct (large_loop_complete lambda st o Hrun) as [fuel E].
    exists fuel. split; [exact E|].
    apply (pa_run_not_OutOfFuel lambda st o Hrun).
Qed.

End Large.

Section Counting.

Context {M : Libm} {State : Type} {G : Generator State}.

(** C7.  [poisson_distribution_huge] makes exactly one normal draw z
    and no uniform draw, and returns round(sqrt(lambda) z + lambda)
    converted to unsigned int; this holds for every lambda, hence for
    every lambda either dispatcher routes to it. *)
Theorem poisson_distribution_huge_one_normal_draw
    (cst : counted State) (lambda : double) :
  let (z, st') := rocrand_normal_double (gen cst) in
  poisson_distribution_huge cst lambda
  = (r <- static_cast_uint (round (sqrt lambda * z + lambda)%dbl) ;;
     Ret (r, Counted st' (uniforms_drawn cst) (S (normals_drawn cst)))).
Proof.
  unfold poisson_distribution_huge. simpl.
  destruct (rocrand_normal_double (gen cst)) as [z st']. reflexivity.
Qed.

(** C9.  A call of [poisson_itr] that returns has made exactly one
    uniform draw, the one before its loops, and no normal draw,
    whatever lambda is: the state it leaves is the state right after
    that draw. *)
Theorem poisson_itr_one_uniform_draw (fuel : nat) (cst : counted State)
    (lambda : double) (r : Z) (cst' : counted State) :
  poisson_itr fuel cst lambda = Ret (r, cst') ->
  cst' = snd (rocrand_uniform_double cst)
  /\ gen cst' = snd (rocrand_uniform_double (gen cst))
  /\ uniforms_drawn cst' = S (uniforms_drawn cst)
  /\ normals_drawn cst' = normals_drawn cst.
Proof.
  unfold poisson_itr.
  destruct (rocrand_uniform_double cst) as [u cst1] eqn:Eu.
  intros E. apply bind_Ret_inv in E. destruct E as [v [_ E]].
  injection E as _ <-.
  split; [reflexivity|].
  simpl in Eu.
  destruct (rocrand_uniform_double (gen cst)) as [u' st1].
  injection Eu as _ <-. simpl. repeat split.
Qed.

(** C10.  [rocrand_poisson4] is four successive single-sample
    [poisson_distribution] calls on the state with the same lambda:
    x, y, z, w are the values of the first to the fourth call, and each
    call starts from the state the previous one left. *)
Theorem rocrand_poisson4_sequential (fuel : nat) (state : State)
    (lambda : double) :
  rocrand_poisson4 fuel state lambda
  = (' (l, state') <- sequential_samples 4 fuel state lambda ;;
     Ret (Uint4 (nth 0 l 0) (nth 1 l 0) (nth 2 l 0) (nth 3 l 0), state'))
  /\ forall (v : uint4) (st4 : State),
      rocrand_poisson4 fuel state lambda = Ret (v, st4) <->
      exists a st1 b st2 c st3 d,
        rocrand_poisson philox4x32_10 fuel state lambda = Ret (a, st1)
        /\ rocrand_poisson philox4x32_10 fuel st1 lambda = Ret (b, st2)
        /\ rocrand_poisson philox4x32_10 fuel st2 lambda = Ret (c, st3)
        /\ rocrand_poisson philox4x32_10 fuel st3 lambda = Ret (d, st4)
        /\ v = Uint4 a b c d.
Proof.
  unfold rocrand_poisson4, rocrand_poisson. simpl sequential_samples.
  split.
  - destruct (poisson_distribution fuel state lambda) as [[a st1]| |];
      simpl; try reflexivity.
    destruct (poisson_distribution fuel st1 lambda) as [[b st2]| |];
      simpl; try reflexivity.
    destruct (poisson_distribution fuel st2 lambda) as [[c st3]| |];
      simpl; try reflexivity.
    destruct (poisson_distribution fuel st3 lambda) as [[d st4]| |];
      simpl; reflexivity.
  - intros v st4. split.
    + intros E.
      apply bind_Ret_inv in E. destruct E as [[a st1] [Ea E]].
      apply bind_Ret_inv in E. destruct E as [[b st2] [Eb E]].
      apply bind_Ret_inv in E. destruct E as [[c st3] [Ec E]].
      apply bind_Ret_inv in E. destruct E as [[d st4'] [Ed E]].
      injection E as <- <-.
      exists a, st1, b, st2, c, st3, d. repeat split; assumption.
    + intros (a & st1 & b & st2 & c & st3 & d & Ea & Eb & Ec & Ed & ->).
      rewrite Ea. simpl. rewrite Eb. simpl. rewrite Ec. simpl.
      rewrite Ed. reflexivity.
Qed.

End Counting.

(** A returning call at lambda = 1 whose single draw is 0. *)
Lemma poisson_itr_one_uniform_draw_witness :
  let cst := Counted (Bench.Script [d_0] []) 0 0 in
  let cst' := Counted (Bench.Script [] []) 1 0 in
  cst' = snd (rocrand_uniform_double cst)
  /\ gen cst' = snd (rocrand_uniform_double (gen cst))
  /\ uniforms_drawn cst' = S (uniforms_drawn cst)
  /\ normals_drawn cst' = normals_drawn cst.
Proof.
  intros cst cst'.
  apply (poisson_itr_one_uniform_draw (M := Bench.table_Libm)
           1 cst d_1 0 cst').
  vm_compute. reflexivity.
Defined.

(* ================================================================== *)
(** * Rounding to nearest in binary64 *)
(* ================================================================== *)

Lemma digits2_pos_size (p : positive) : digits2_pos p = Pos.size p.
Proof. induction p as [p IH|p IH|]; simpl; congruence. Qed.

Lemma Zdigits2_log2 (p : positive) : Zdigits2 (Zpos p) = Z.log2 (Zpos p) + 1.
Proof.
  unfold Zdigits2. rewrite digits2_pos_size.
  destruct p as [p|p|]; simpl; try rewrite Pos2Z.inj_succ; lia.
Qed.

Lemma Zdigits2_unique (m d : Z) :
  0 < d -> 2 ^ (d - 1) <= m < 2 ^ d -> Zdigits2 m = d.
Proof.
  intros Hd Hm.
  assert (0 < m) by (pose proof (Z.pow_pos_nonneg 2 (d - 1)); lia).
  destruct m as [|p|p]; try lia.
  rewrite Zdigits2_log2.
  rewrite (Z.log2_unique (Zpos p) (d - 1)); try lia.
  replace (Z.succ (d - 1)) with d by lia. exact Hm.
Qed.

Lemma shr_1_nonneg (m : Z) (r s : bool) :
  0 <= m ->
  shr_1 (Build_shr_record m r s)
  = Build_shr_record (Z.div2 m) (Z.odd m) (r || s).
Proof.
  intros Hm. destruct m as [|[p|p|]|p]; try reflexivity; lia.
Qed.

Lemma iter_pos_shift {A : Type} (f : A -> A) (P : Z -> A -> Prop) :
  (forall n a, 0 <= n -> P n a -> P (n + 1) (f a)) ->
  forall (p : positive) (n : Z) (a : A),
    0 <= n -> P n a -> P (n + Zpos p) (iter_pos f p a).
Proof.
  intros step. induction p as [p IH|p IH|]; intros n a Hn Ha; simpl.
  - replace (n + Zpos p~1) with (n + 1 + Zpos p + Zpos p) by lia.
    apply IH; [lia|]. apply IH; [lia|]. apply step; assumption.
  - replace (n + Zpos p~0) with (n + Zpos p + Zpos p) by lia.
    apply IH; [lia|]. apply IH; assumption.
  - apply step; assumption.
Qed.

Lemma shifted_step (m n : Z) :
  0 <= m -> 0 <= n -> shr_1 (shifted m n) = shifted m (n + 1).
Proof.
  intros Hm Hn. unfold shifted.
  destruct (Z.eqb_spec n 0) as [->|Hn0].
  - rewrite shr_1_nonneg by assumption.
    change (0 + 1 =? 0) with false. cbv iota.
    change (0 + 1 - 1) with 0. change (2 ^ (0 + 1)) with 2.
    change (2 ^ 0) with 1.
    rewrite Z.div2_div, Z.mod_1_r, Z.bit0_odd. reflexivity.
  - destruct (Z.eqb_spec (n + 1) 0); [lia|].
    assert (0 < 2 ^ n) by (apply Z.pow_pos_nonneg; lia).
    assert (0 < 2 ^ (n - 1)) by (apply Z.pow_pos_nonneg; lia).
    rewrite shr_1_nonneg by (apply Z.div_pos; lia).
    replace (n + 1 - 1) with n by lia.
    f_equal.
    + rewrite Z.div2_div, Z.div_div by lia.
      rewrite Z.pow_add_r by lia. reflexivity.
    + rewrite Z.testbit_odd, Z.shiftr_div_pow2 by lia. reflexivity.
    + replace (2 ^ n) with (2 ^ (n - 1) * 2).
      2:{ rewrite Z.mul_comm, <- (Z.pow_succ_r 2 (n - 1)) by lia.
          f_equal. lia. }
      rewrite Z.rem_mul_r by lia.
      rewrite Z.testbit_odd, Z.shiftr_div_pow2 by lia.
      rewrite Zmod_odd.
      pose proof (Z.mod_pos_bound m (2 ^ (n - 1)) ltac:(lia)).
      destruct (Z.odd (m / 2 ^ (n - 1))); simpl.
      * destruct (Z.eqb_spec (m mod 2 ^ (n - 1) + 2 ^ (n - 1) * 1) 0); [lia|].
        reflexivity.
      * rewrite Z.mul_0_r, Z.add_0_r. reflexivity.
Qed.

Lemma shr_exact (m : Z) (p : positive) :
  0 <= m ->
  iter_pos shr_1 p (Build_shr_record m false false) = shifted m (Zpos p).
Proof.
  intros Hm.
  apply (iter_pos_shift shr_1 (fun n a => a = shifted m n)
           (fun n a Hn E => eq_trans (f_equal shr_1 E) (shifted_step m n Hm Hn))
           p 0 _ (Z.le_refl 0)).
  reflexivity.
Qed.

Lemma fexp_normal (z : Z) : -1021 <= z -> fexp prec emax z = z - 53.
Proof. unfold fexp, emin, prec, emax. lia. Qed.

Lemma shr_fexp_exact (M e n : Z) :
  0 < M -> 0 < n -> Zdigits2 M + e - 53 = e + n -> -1074 <= e + n ->
  shr_fexp prec emax M e loc_Exact = (shifted M n, e + n).
Proof.
  intros HM Hn Hd Hmin.
  unfold shr_fexp. rewrite fexp_normal by lia.
  replace (Zdigits2 M + e - 53 - e) with n by lia.
  destruct n as [|p|p]; try lia.
  unfold shr, shr_record_of_loc. rewrite shr_exact by lia. reflexivity.
Qed.

Lemma shr_fexp_still (q e : Z) :
  2 ^ 52 <= q < 2 ^ 53 -> -1074 <= e ->
  shr_fexp prec emax q e loc_Exact = (Build_shr_record q false false, e).
Proof.
  intros Hq He.
  unfold shr_fexp. rewrite (Zdigits2_unique q 53) by (simpl; lia).
  rewrite fexp_normal by lia.
  replace (53 + e - 53 - e) with 0 by lia. reflexivity.
Qed.

(** Rounding to nearest of [q * 2^n + r] at exponent [e], when [q] has
    53 bits and the remainder [r] is below half a unit: [q] at
    exponent [e + n]. *)
Lemma binary_round_aux_below_half (s : bool) (M e n q r : Z) :
  0 < n -> M = q * 2 ^ n + r -> 0 <= r < 2 ^ (n - 1) ->
  2 ^ 52 <= q < 2 ^ 53 -> -1074 <= e + n <= 971 ->
  binary_round_aux prec emax s M e loc_Exact
  = S754_finite s (Z.to_pos q) (e + n).
Proof.
  intros Hn HM Hr Hq He.
  assert (Hh : 0 < 2 ^ (n - 1)) by (apply Z.pow_pos_nonneg; lia).
  assert (Hp : 2 ^ n = 2 * 2 ^ (n - 1)).
  { rewrite <- (Z.pow_succ_r 2 (n - 1)) by lia. f_equal. lia. }
  assert (HdM : Zdigits2 M = 53 + n).
  { apply Zdigits2_unique; [lia|].
    replace (53 + n - 1) with (52 + n) by lia.
    rewrite !Z.pow_add_r by lia. nia. }
  unfold binary_round_aux.
  rewrite (shr_fexp_exact M e n) by nia.
  assert (Hsh : shifted M n = Build_shr_record q false (negb (r =? 0))).
  { unfold shifted. destruct (Z.eqb_spec n 0); [lia|].
    f_equal.
    - symmetry. apply (Z.div_unique_pos M (2 ^ n) q r); lia.
    - rewrite Z.testbit_odd, Z.shiftr_div_pow2 by lia.
      rewrite <- (Z.div_unique_pos M (2 ^ (n - 1)) (2 * q) r) by lia.
      rewrite Z.odd_mul. reflexivity.
    - rewrite <- (Z.mod_unique_pos M (2 ^ (n - 1)) (2 * q) r) by lia.
      reflexivity. }
  rewrite Hsh.
  assert (Hrnd : round_nearest_even
                   (shr_m (Build_shr_record q false (negb (r =? 0))))
                   (loc_of_shr_record
                      (Build_shr_record q false (negb (r =? 0)))) = q).
  { destruct (negb (r =? 0)); reflexivity. }
  rewrite Hrnd.
  rewrite (shr_fexp_still q (e + n)) by lia.
  cbn [shr_m].
  destruct q as [|m|m]; try lia.
  unfold prec, emax.
  destruct (Z.leb_spec (e + n) (1024 - 53)); [reflexivity|lia].
Qed.

(* ================================================================== *)
(** * Knuth's method *)
(* ================================================================== *)

Section Small.
Context {M : Libm} {State : Type} {G : Generator State}.

Lemma running_product_S (i : nat) (p : double) (st : State) :
  running_product (S i) p st
  = running_product i (p * fst (rocrand_uniform_double st))%dbl
      (snd (rocrand_uniform_double st)).
Proof. simpl. destruct (rocrand_uniform_double st). reflexivity. Qed.

Lemma uint_wrap_add_l (a b : Z) :
  uint_wrap (uint_wrap a + b) = uint_wrap (a + b).
Proof. unfold uint_wrap. apply Zplus_mod_idemp_l. Qed.

(** The loop from running product [p] and counter [k], when the
    product first fails to exceed the limit at the [n]-th draw. *)
Lemma small_loop_runs (n : nat) :
  forall (fuel : nat) (limit : double) (k : Z) (p : double) (st : State),
    (1 <= n)%nat ->
    (forall i, (1 <= i < n)%nat ->
       (running_product i p st >? limit)%dbl = true) ->
    (running_product n p st >? limit)%dbl = false ->
    small_loop fuel limit k p st
    = if (n <=? fuel)%nat
      then Ret (uint_wrap (k + Z.of_nat n), uniform_draws n st)
      else OutOfFuel.
Proof.
  induction n as [|n IH]; intros fuel limit k p st Hn Hbefore Hat; [lia|].
  destruct fuel as [|fuel]; [reflexivity|].
  cbn [small_loop uniform_draws].
  rewrite running_product_S in Hat.
  destruct (rocrand_uniform_double st) as [u st1] eqn:Eu.
  cbn [fst snd] in *.
  destruct n as [|n].
  - cbn [running_product] in Hat. rewrite Hat.
    cbn [uniform_draws Nat.leb]. reflexivity.
  - assert (H1 : (p * u >? limit)%dbl = true).
    { specialize (Hbefore 1%nat ltac:(lia)).
      rewrite running_product_S, Eu in Hbefore. exact Hbefore. }
    rewrite H1.
    rewrite (IH fuel limit (uint_wrap (k + 1)) (p * u)%dbl st1);
      try assumption; try lia.
    + change (S (S n) <=? S fuel)%nat with (S n <=? fuel)%nat.
      destruct (S n <=? fuel)%nat; [|reflexivity].
      rewrite uint_wrap_add_l. do 2 f_equal. f_equal. lia.
    + intros i Hi. specialize (Hbefore (S i) ltac:(lia)).
      rewrite running_product_S, Eu in Hbefore. exact Hbefore.
Qed.

Lemma uint_wrap_sub_1 (n : Z) :
  uint_wrap (uint_wrap n - 1) = uint_wrap (n - 1).
Proof. unfold uint_wrap. apply Zminus_mod_idemp_l. Qed.

Lemma poisson_distribution_small_runs (n fuel : nat) (st : State)
    (lambda : double) :
  first_failure n (exp (- lambda)%dbl) st ->
  poisson_distribution_small fuel st lambda
  = if (n <=? fuel)%nat
    then Ret (uint_wrap (Z.of_nat n - 1), uniform_draws n st)
    else OutOfFuel.
Proof.
  intros (Hn & Hbefore & Hat).
  unfold poisson_distribution_small.
  rewrite (small_loop_runs n fuel _ 0 d_1 st Hn Hbefore Hat).
  destruct (n <=? fuel)%nat; [|reflexivity].
  cbn [bind]. rewrite uint_wrap_sub_1. reflexivity.
Qed.

Lemma uniform_draws_counted (n : nat) (cst : counted State) :
  uniform_draws n cst
  = Counted (uniform_draws n (gen cst))
      (uniforms_drawn cst + n) (normals_drawn cst).
Proof.
  revert cst. induction n as [|n IH]; intros [st nu nn].
  - cbn. rewrite Nat.add_0_r. reflexivity.
  - cbn [uniform_draws]. rewrite IH. cbn.
    destruct (rocrand_uniform_double st) as [u st1]. cbn.
    f_equal. lia.
Qed.

End Small.

Section SmallCounted.
Context {M : Libm} {State : Type} {G : Generator State}.

(** C6 (as amended).  When k >= 1 is the number of uniform draws taken
    until the running product of the draws, started at 1, first fails
    to exceed exp(-lambda), [poisson_distribution_small] returns
    (k - 1) mod 2^32, consumes exactly those k uniform draws and no
    normal draw; the value is k - 1 itself as long as k <= 2^32. *)
Theorem poisson_distribution_small_counts_draws (n fuel : nat)
    (cst : counted State) (lambda : double) :
  first_failure n (exp (- lambda)%dbl) cst ->
  (n <= fuel)%nat ->
  poisson_distribution_small fuel cst lambda
  = Ret ((Z.of_nat n - 1) mod 2 ^ 32,
         Counted (uniform_draws n (gen cst))
           (uniforms_drawn cst + n) (normals_drawn cst))
  /\ (Z.of_nat n <= 2 ^ 32 ->
      (Z.of_nat n - 1) mod 2 ^ 32 = Z.of_nat n - 1).
Proof.
  intros Hff Hfuel.
  rewrite (poisson_distribution_small_runs n fuel cst lambda Hff).
  destruct (Nat.leb_spec n fuel); [|lia].
  rewrite uniform_draws_counted. split; [reflexivity|].
  intros Hn. destruct Hff as [H1 _].
  apply Z.mod_small. lia.
Qed.

End SmallCounted.

(** ** A run of more than 2^32 draws *)

Lemma mul_below_one (i : Z) :
  1 <= i < 2 ^ 52 ->
  (Bench.one_minus i * Bench.below_one)%dbl = Bench.one_minus (i + 1).
Proof.
  intros Hi.
  unfold Double.mul, Bench.one_minus, Bench.below_one, SFmul.
  cbn [xorb].
  change (-53 + -53) with (-106).
  rewrite (binary_round_aux_below_half false _ (-106) 53
             (2 ^ 53 - (i + 1)) i); try lia.
  reflexivity.
Qed.

Lemma gtb_one_minus (i j : Z) :
  0 < i < 2 ^ 53 -> 0 < j < 2 ^ 53 ->
  (Bench.one_minus i >? Bench.one_minus j)%dbl = (i <? j).
Proof.
  intros Hi Hj.
  unfold Double.gtb, SFltb, Bench.one_minus, SFcompare.
  rewrite Z.compare_refl.
  change (Pos.compare_cont Eq ?a ?b) with (Pos.compare a b).
  rewrite <- Z2Pos.inj_compare by lia.
  destruct (Z.compare_spec (2 ^ 53 - j) (2 ^ 53 - i));
    destruct (Z.ltb_spec i j); try reflexivity; lia.
Qed.

Lemma steady_draws (n : nat) (s : Z) :
  uniform_draws n (Bench.Steady s) = Bench.Steady (s + Z.of_nat n).
Proof.
  revert s. induction n as [|n IH]; intros s.
  - simpl. f_equal. lia.
  - cbn [uniform_draws]. cbn [rocrand_uniform_double Bench.steady_Generator snd Bench.drawn].
    rewrite IH. f_equal. lia.
Qed.

Lemma steady_product_from (n : nat) (j s : Z) :
  1 <= j -> j + Z.of_nat n <= 2 ^ 52 ->
  running_product n (Bench.one_minus j) (Bench.Steady s)
  = Bench.one_minus (j + Z.of_nat n).
Proof.
  revert j s. induction n as [|n IH]; intros j s Hj Hn.
  - simpl. f_equal. lia.
  - cbn [running_product rocrand_uniform_double Bench.steady_Generator].
    rewrite mul_below_one by lia.
    rewrite IH by lia. f_equal. lia.
Qed.

Lemma steady_product (n : nat) (s : Z) :
  (1 <= n)%nat -> Z.of_nat n <= 2 ^ 52 ->
  running_product n d_1 (Bench.Steady s) = Bench.one_minus (Z.of_nat n).
Proof.
  intros H1 Hn. destruct n as [|n]; [lia|].
  cbn [running_product rocrand_uniform_double Bench.steady_Generator].
  change (d_1 * Bench.below_one)%dbl with (Bench.one_minus 1).
  rewrite steady_product_from by lia. f_equal. lia.
Qed.

Lemma steady_first_failure (j : Z) (s : Z) :
  1 <= j <= 2 ^ 52 ->
  first_failure (Z.to_nat j) (Bench.one_minus j) (Bench.Steady s).
Proof.
  intros Hj. repeat split.
  - lia.
  - intros i Hi. rewrite steady_product by lia.
    rewrite gtb_one_minus by lia. apply Z.ltb_lt. lia.
  - rewrite steady_product by lia.
    rewrite gtb_one_minus by lia. apply Z.ltb_ge. lia.
Qed.


Lemma steady_small (M : Libm) (j : Z) (lambda : double) (fuel : nat)
    (v : Z) (st' : Bench.steady) :
  1 <= j <= 2 ^ 52 ->
  exp (- lambda)%dbl = Bench.one_minus j ->
  poisson_distribution_small fuel (Bench.Steady 0) lambda = Ret (v, st') ->
  v = (j - 1) mod 2 ^ 32 /\ st' = Bench.Steady j.
Proof.
  intros Hj Hexp E.
  rewrite (poisson_distribution_small_runs (Z.to_nat j)) in E.
  2:{ rewrite Hexp. apply steady_first_failure. exact Hj. }
  destruct (_ <=? fuel)%nat; [|discriminate].
  rewrite steady_draws in E.
  rewrite Z2Nat.id in E by lia.
  injection E as <- <-. split; reflexivity.
Qed.

Lemma steady_draws_in_unit_interval (s : Z) :
  draws_in_unit_interval (Bench.Steady s).
Proof. intros i. rewrite steady_draws. split; reflexivity. Qed.

Lemma steady_refutes (M : Libm) (j : Z) (lambda : double) :
  2 ^ 32 < j <= 2 ^ 52 ->
  (d_0 <? lambda)%dbl = true ->
  (lambda <? lambda_threshold_small)%dbl = true ->
  exp (- lambda)%dbl = Bench.one_minus j ->
  ~ knuth_returns_draws_minus_one (Bench.Steady 0) lambda.
Proof.
  intros Hj Hpos Hsmall Hexp H.
  destruct (H Hpos Hsmall (steady_draws_in_unit_interval 0) (Z.to_nat j))
    as [fuel E].
  - rewrite Hexp. apply steady_first_failure. lia.
  - apply (steady_small M j) in E; [|lia|exact Hexp].
    destruct E as [E _]. rewrite Z2Nat.id in E by lia.
    pose proof (Z.mod_pos_bound (j - 1) (2 ^ 32) ltac:(lia)). lia.
Qed.

(** lambda = 2^-20 with every draw equal to 1 - 2^-53: the limit
    exp(-lambda) is 1 - (2^33 - 2^12) 2^-53, the running product after i
    draws is 1 - i 2^-53, so 2^33 - 2^12 = 8589930496 draws are taken
    and the 32-bit counter returns 4294963199, not 8589930495. *)
Lemma knuth_counterexample :
  let st := Bench.Steady 0 in
  let lambda := Bench.d_2p_20 in
  draws_in_unit_interval st
  /\ (d_0 <? lambda)%dbl = true
  /\ (lambda <? lambda_threshold_small)%dbl = true
  /\ first_failure (Z.to_nat 8589930496)
       (@exp Bench.table_Libm (- lambda)%dbl) st
  /\ (forall fuel v st',
        poisson_distribution_small (M := Bench.table_Libm) fuel st lambda
        = Ret (v, st') ->
        v = 4294963199 /\ st' = Bench.Steady 8589930496)
  /\ ~ knuth_returns_draws_minus_one (M := Bench.table_Libm) st lambda.
Proof.
  intros st lambda.
  assert (Hexp : @exp Bench.table_Libm (- lambda)%dbl
                 = Bench.one_minus 8589930496) by reflexivity.
  split; [apply steady_draws_in_unit_interval|].
  split; [reflexivity|]. split; [reflexivity|].
  split; [|split].
  - rewrite Hexp. apply steady_first_failure. lia.
  - intros fuel v st' E.
    apply (steady_small Bench.table_Libm 8589930496) in E;
      [exact E|lia|exact Hexp].
  - apply (steady_refutes Bench.table_Libm 8589930496);
      [lia|reflexivity|reflexivity|exact Hexp].
Qed.

(** Two draws, 0.9 then 0.25, at lambda = 1: the product 0.9 exceeds
    exp(-1), the product 0.225 does not. *)
Lemma poisson_distribution_small_counts_draws_witness :
  let cst := Counted (Bench.Script [Bench.d_0_9; Bench.d_0_25] []) 0 0 in
  poisson_distribution_small (M := Bench.table_Libm) 2 cst d_1
  = Ret ((Z.of_nat 2 - 1) mod 2 ^ 32,
         Counted (uniform_draws 2 (gen cst))
           (uniforms_drawn cst + 2) (normals_drawn cst))
  /\ (Z.of_nat 2 <= 2 ^ 32 ->
      (Z.of_nat 2 - 1) mod 2 ^ 32 = Z.of_nat 2 - 1).
Proof.
  intros cst.
  apply (poisson_distribution_small_counts_draws (M := Bench.table_Libm)
           2 2 cst d_1).
  - split; [lia|]. split.
    + intros i Hi. assert (i = 1%nat) as -> by lia. vm_compute. reflexivity.
    + vm_compute. reflexivity.
  - lia.
Defined.

(* ================================================================== *)
(** * Conversions to unsigned int *)
(* ================================================================== *)

Lemma cast_not_negative (d : double) :
  (d <? d_0)%dbl = false ->
  static_cast_uint d <> Undefined NegativeToUnsigned.
Proof.
  unfold static_cast_uint.
  destruct d as [s|s| |s m e].
  - intros _. discriminate.
  - destruct s; [discriminate|]. intros _. discriminate.
  - intros _. discriminate.
  - destruct s; [discriminate|]. intros _.
    cbn [trunc].
    pose proof (proj2 (Z.shiftl_nonneg (Zpos m) e) ltac:(lia)) as Hs.
    destruct (Z.ltb_spec (Z.shiftl (Zpos m) e) 0); [lia|].
    destruct (Z.shiftl (Zpos m) e <? UINT_MODULUS); discriminate.
Qed.

Lemma cast_Ret_range (d : double) (z : Z) :
  static_cast_uint d = Ret z -> 0 <= z < 2 ^ 32.
Proof.
  unfold static_cast_uint.
  destruct (trunc d) as [t|].
  - destruct (Z.ltb_spec t 0); [discriminate|].
    destruct (Z.ltb_spec t UINT_MODULUS); [|discriminate].
    intros E. injection E as <-. unfold UINT_MODULUS in *. lia.
  - destruct d as [s|[|]| |s m e]; discriminate.
Qed.

Lemma uint_wrap_range (z : Z) : 0 <= uint_wrap z < 2 ^ 32.
Proof. unfold uint_wrap, UINT_MODULUS. apply Z.mod_pos_bound. lia. Qed.

Section Paths.
Context {M : Libm} {State : Type} {G : Generator State}.

Lemma small_loop_outcome (fuel : nat) :
  forall (limit : double) (k : Z) (p : double) (st : State),
    small_loop fuel limit k p st = OutOfFuel
    \/ exists k' st', small_loop fuel limit k p st = Ret (k', st')
                      /\ 0 <= k' < 2 ^ 32.
Proof.
  induction fuel as [|fuel IH]; intros limit k p st; cbn [small_loop].
  - left. reflexivity.
  - destruct (rocrand_uniform_double st) as [u st1].
    destruct (p * u >? limit)%dbl.
    + apply IH.
    + right. exists (uint_wrap (k + 1)), st1.
      split; [reflexivity|apply uint_wrap_range].
Qed.

Lemma small_outcome (fuel : nat) (st : State) (lambda : double) :
  poisson_distribution_small fuel st lambda = OutOfFuel
  \/ exists v st', poisson_distribution_small fuel st lambda = Ret (v, st')
                   /\ 0 <= v < 2 ^ 32.
Proof.
  unfold poisson_distribution_small.
  destruct (small_loop_outcome fuel (exp (- lambda)%dbl) 0 d_1 st)
    as [E|(k' & st' & E & _)]; rewrite E; cbn.
  - left. reflexivity.
  - right. exists (uint_wrap (k' - 1)), st'.
    split; [reflexivity|apply uint_wrap_range].
Qed.

Lemma cast_then_Ret (d : double) (st : State) :
  (d <? d_0)%dbl = false ->
  (r <- static_cast_uint d ;; Ret (r, st)) <> Undefined NegativeToUnsigned
  /\ forall v st', (r <- static_cast_uint d ;; Ret (r, st)) = Ret (v, st') ->
                   0 <= v < 2 ^ 32.
Proof.
  intros Hd. pose proof (cast_not_negative d Hd) as Hn.
  pose proof (cast_Ret_range d) as Hr.
  destruct (static_cast_uint d) as [z|f|]; cbn.
  - split; [discriminate|]. intros v st' E. injection E as <- _.
    apply Hr. reflexivity.
  - split; [congruence|discriminate].
  - split; discriminate.
Qed.

Lemma large_loop_outcome (fuel : nat) :
  forall (alpha beta k log_lambda : double) (st : State),
    large_loop fuel alpha beta k log_lambda st
      <> Undefined NegativeToUnsigned
    /\ forall v st',
        large_loop fuel alpha beta k log_lambda st = Ret (v, st') ->
        0 <= v < 2 ^ 32.
Proof.
  induction fuel as [|fuel IH]; intros alpha beta k log_lambda st;
    cbn [large_loop].
  - split; discriminate.
  - destruct (rocrand_uniform_double st) as [u st1].
    match goal with |- context [if ?b then _ else _] =>
      destruct b eqn:Eneg end; [apply IH|].
    destruct (rocrand_uniform_double st1) as [v st2].
    match goal with |- context [if ?b then _ else _] =>
      destruct b end; [|apply IH].
    apply cast_then_Ret. exact Eneg.
Qed.

Lemma itr_body_outcome (lambda : double) (v : itr_vars) :
  itr_body lambda v = Undefined SignedOverflow
  \/ exists v', itr_body lambda v = Ret v'.
Proof.
  unfold itr_body, int_add.
  destruct (k v + 1 <=? INT_MAX); cbn; [right; eexists; reflexivity|].
  left. reflexivity.
Qed.

Lemma itr_inner_outcome (fuel : nat) :
  forall (lambda u : double) (v : itr_vars) (f : fault),
    itr_inner fuel lambda u v = Undefined f -> f = SignedOverflow.
Proof.
  induction fuel as [|fuel IH]; intros lambda u v f; cbn [itr_inner].
  - discriminate.
  - destruct (u >? y v)%dbl; [|discriminate].
    destruct (itr_body_outcome lambda v) as [E|[v' E]]; rewrite E; cbn.
    + congruence.
    + apply IH.
Qed.

Lemma itr_outer_outcome (fuel inner_fuel : nat) :
  forall (lambda u upow ex : double) (v : itr_vars) (f : fault),
    itr_outer fuel inner_fuel lambda u upow ex v = Undefined f ->
    f = SignedOverflow.
Proof.
  induction fuel as [|fuel IH]; intros lambda u upow ex v f;
    cbn [itr_outer].
  - discriminate.
  - unfold itr_chunk, int_add.
    destruct (pow v + 500 <=? INT_MAX); cbn; [|congruence].
    match goal with |- context [itr_inner ?a ?b ?c ?d] =>
      pose proof (itr_inner_outcome a b c d) as Hin;
      destruct (itr_inner a b c d) as [v'|f'|] end; cbn.
    + destruct (of_int (pow v') <? lambda)%dbl; [apply IH|discriminate].
    + intros E. injection E as <-. apply Hin. reflexivity.
    + discriminate.
Qed.

Lemma poisson_itr_outcome (fuel : nat) (st : State) (lambda : double) :
  poisson_itr fuel st lambda <> Undefined NegativeToUnsigned
  /\ forall v st', poisson_itr fuel st lambda = Ret (v, st') ->
                   0 <= v < 2 ^ 32.
Proof.
  unfold poisson_itr.
  destruct (rocrand_uniform_double st) as [u st1].
  match goal with |- context [itr_outer ?a ?b ?c ?d ?e ?f ?g] =>
    pose proof (itr_outer_outcome a b c d e f g) as Hout;
    destruct (itr_outer a b c d e f g) as [v'|f'|] end; cbn.
  - split; [discriminate|]. intros v st' E. injection E as <- _.
    apply uint_wrap_range.
  - split; [|discriminate]. intros E. injection E as ->.
    specialize (Hout _ eq_refl). discriminate.
  - split; discriminate.
Qed.

Lemma poisson_distribution_huge_outcome (st : State) (lambda : double) :
  (huge_operand st lambda <? d_0)%dbl = false ->
  poisson_distribution_huge st lambda <> Undefined NegativeToUnsigned
  /\ forall v st', poisson_distribution_huge st lambda = Ret (v, st') ->
                   0 <= v < 2 ^ 32.
Proof.
  unfold huge_operand, poisson_distribution_huge.
  destruct (rocrand_normal_double st) as [z st1]. cbn [fst].
  apply cast_then_Ret.
Qed.

Lemma small_path_outcome (fuel : nat) (st : State) (lambda : double) :
  poisson_distribution_small fuel st lambda <> Undefined NegativeToUnsigned
  /\ forall v st', poisson_distribution_small fuel st lambda = Ret (v, st') ->
                   0 <= v < 2 ^ 32.
Proof.
  destruct (small_outcome fuel st lambda) as [E|(v0 & st0 & E & Hv)];
    rewrite E.
  - split; discriminate.
  - split; [discriminate|]. intros v st' E'. injection E' as <- _. exact Hv.
Qed.

End Paths.

(** ** A run of exactly 2^32 draws *)

Lemma steady_small_loop (limit : double) (j : Z) (fuel : nat) :
  1 <= j <= 2 ^ 52 ->
  limit = Bench.one_minus j ->
  small_loop fuel limit 0 d_1 (Bench.Steady 0)
  = if (Z.to_nat j <=? fuel)%nat
    then Ret (j mod 2 ^ 32, Bench.Steady j)
    else OutOfFuel.
Proof.
  intros Hj ->.
  destruct (steady_first_failure j 0 Hj) as (Hn1 & Hbefore & Hat).
  rewrite (small_loop_runs _ fuel _ 0 d_1 _ Hn1 Hbefore Hat).
  rewrite steady_draws, Z2Nat.id by lia. reflexivity.
Qed.

Lemma steady_refutes_never_negative (M : Libm) (j : Z) (lambda : double) :
  1 <= j <= 2 ^ 52 ->
  j mod 2 ^ 32 = 0 ->
  exp (- lambda)%dbl = Bench.one_minus j ->
  (d_0 <? lambda)%dbl = true ->
  (forall e, routed_to_huge e lambda = false) ->
  ~ never_negative (Bench.Steady 0) lambda.
Proof.
  intros Hj Hmod Hexp Hpos Hroute H.
  destruct (H Hpos) as (_ & _ & Hk).
  - intros e He. rewrite Hroute in He. discriminate He.
  - specialize (Hk (Z.to_nat j) (j mod 2 ^ 32) (Bench.Steady j)).
    rewrite (steady_small_loop _ j _ Hj Hexp), Nat.leb_refl in Hk.
    destruct (Hk eq_refl) as [Hk1 _]. lia.
Qed.

(** lambda = 2^-21 + 2^-43 with every draw equal to 1 - 2^-53: the
    limit exp(-lambda) is 1 - 2^32 2^-53, so exactly 2^32 draws are
    taken and the 32-bit counter k is 0 when the loop exits. *)
Lemma never_negative_counterexample :
  let st := Bench.Steady 0 in
  let lambda := Bench.d_2p_21_43 in
  (d_0 <? lambda)%dbl = true
  /\ (lambda <? lambda_threshold_small)%dbl = true
  /\ draws_in_unit_interval st
  /\ first_failure (Z.to_nat 4294967296)
       (@exp Bench.table_Libm (- lambda)%dbl) st
  /\ small_loop (Z.to_nat 4294967296)
       (@exp Bench.table_Libm (- lambda)%dbl) 0 d_1 st
     = Ret (0, Bench.Steady 4294967296)
  /\ ~ never_negative (M := Bench.table_Libm) st lambda.
Proof.
  intros st lambda.
  assert (Hexp : @exp Bench.table_Libm (- lambda)%dbl
                 = Bench.one_minus 4294967296) by reflexivity.
  split; [reflexivity|]. split; [reflexivity|].
  split; [apply steady_draws_in_unit_interval|].
  split; [|split].
  - rewrite Hexp. apply steady_first_failure. lia.
  - rewrite (steady_small_loop _ 4294967296 _ ltac:(lia) Hexp).
    rewrite Nat.leb_refl. reflexivity.
  - apply (steady_refutes_never_negative Bench.table_Libm 4294967296).
    + lia.
    + reflexivity.
    + exact Hexp.
    + reflexivity.
    + intros e. destruct e; reflexivity.
Qed.

(* ================================================================== *)
(** * The chunked iterative sampler *)
(* ================================================================== *)

(** ** Quotients stay finite *)

Lemma shr_1_m (mrs : shr_record) :
  0 <= shr_m mrs -> shr_m (shr_1 mrs) = shr_m mrs / 2.
Proof.
  destruct mrs as [m r s]. cbn [shr_m]. intros Hm.
  rewrite shr_1_nonneg by assumption. cbn [shr_m]. apply Z.div2_div.
Qed.

Lemma shr_m_iter (p : positive) (mrs : shr_record) :
  0 <= shr_m mrs ->
  shr_m (iter_pos shr_1 p mrs) = shr_m mrs / 2 ^ Zpos p.
Proof.
  intros Hm.
  assert (H : shr_m (iter_pos shr_1 p mrs) = shr_m mrs / 2 ^ (0 + Zpos p)).
  { apply (iter_pos_shift shr_1
             (fun n a => shr_m a = shr_m mrs / 2 ^ n)); [|lia|].
    - intros n a Hn Ha.
      assert (0 < 2 ^ n) by (apply Z.pow_pos_nonneg; lia).
      rewrite shr_1_m by (rewrite Ha; apply Z.div_pos; lia).
      rewrite Ha, Z.div_div by lia. f_equal.
      rewrite Z.pow_add_r by lia. reflexivity.
    - rewrite Z.div_1_r. reflexivity. }
  exact H.
Qed.

Lemma shr_m_of_loc (m : Z) (l : location) :
  shr_m (shr_record_of_loc m l) = m.
Proof. destruct l as [|[| |]]; reflexivity. Qed.

Lemma round_nearest_even_bounds (m : Z) (l : location) :
  m <= round_nearest_even m l <= m + 1.
Proof.
  destruct l as [|[| |]]; cbn; try lia.
  destruct (Z.even m); lia.
Qed.

Lemma Zdigits2_bounds (m : Z) :
  0 < m -> 2 ^ (Zdigits2 m - 1) <= m < 2 ^ Zdigits2 m.
Proof.
  intros Hm. destruct m as [|p|p]; try lia.
  rewrite Zdigits2_log2.
  replace (Z.log2 (Z.pos p) + 1 - 1) with (Z.log2 (Z.pos p)) by lia.
  pose proof (Z.log2_spec (Zpos p) ltac:(lia)) as H.
  replace (Z.log2 (Z.pos p) + 1) with (Z.succ (Z.log2 (Z.pos p))) by lia.
  exact H.
Qed.

Lemma Zdigits2_ge (m d : Z) : 0 <= d -> 2 ^ d <= m -> d + 1 <= Zdigits2 m.
Proof.
  intros Hd Hm.
  assert (0 < m) by (pose proof (Z.pow_pos_nonneg 2 d); lia).
  pose proof (Zdigits2_bounds m ltac:(lia)) as Hb.
  destruct (Z.le_gt_cases (d + 1) (Zdigits2 m)) as [H'|H']; [exact H'|].
  assert (2 ^ Zdigits2 m <= 2 ^ d) by (apply Z.pow_le_mono_r; lia).
  lia.
Qed.

Lemma Zdigits2_le (m d : Z) : 0 < m < 2 ^ d -> Zdigits2 m <= d.
Proof.
  intros Hm.
  pose proof (Zdigits2_bounds m ltac:(lia)) as Hb.
  assert (0 < Zdigits2 m) by (destruct m; cbn; lia).
  destruct (Z.le_gt_cases (Zdigits2 m) d) as [H'|H']; [exact H'|].
  assert (2 ^ d <= 2 ^ (Zdigits2 m - 1)) by (apply Z.pow_le_mono_r; lia).
  lia.
Qed.

(** The first shift of [binary_round_aux] leaves a 53-bit mantissa. *)
Lemma shr_fexp_normalises (q e : Z) (l : location) :
  2 ^ 52 <= q -> -1000 <= e ->
  exists mrs e1,
    shr_fexp prec emax q e l = (mrs, e1)
    /\ 2 ^ 52 <= shr_m mrs < 2 ^ 53
    /\ e1 = Zdigits2 q + e - 53.
Proof.
  intros Hq He.
  pose proof (Zdigits2_bounds q ltac:(lia)) as Hd.
  pose proof (Zdigits2_ge q 52 ltac:(lia) Hq) as Hd53.
  unfold shr_fexp. rewrite fexp_normal by lia.
  remember (Zdigits2 q + e - 53 - e) as n eqn:En.
  assert (Hn : n = Zdigits2 q - 53) by lia.
  destruct n as [|p|p]; try lia; unfold shr.
  - exists (shr_record_of_loc q l), e.
    rewrite shr_m_of_loc.
    replace (Zdigits2 q) with 53 in * by lia.
    repeat split; lia.
  - exists (iter_pos shr_1 p (shr_record_of_loc q l)), (e + Zpos p).
    rewrite shr_m_iter, shr_m_of_loc by (rewrite shr_m_of_loc; lia).
    split; [reflexivity|]. split; [|lia].
    assert (Hp : 0 < 2 ^ Zpos p) by (apply Z.pow_pos_nonneg; lia).
    assert (E1 : 2 ^ (Zdigits2 q - 1) = 2 ^ 52 * 2 ^ Zpos p).
    { rewrite <- Z.pow_add_r by lia. f_equal. lia. }
    assert (E2 : 2 ^ Zdigits2 q = 2 ^ 53 * 2 ^ Zpos p).
    { rewrite <- Z.pow_add_r by lia. f_equal. lia. }
    split.
    + apply Z.div_le_lower_bound; lia.
    + apply Z.div_lt_upper_bound; lia.
Qed.

(** Rounding a mantissa of at least 53 bits at a moderate exponent
    gives a finite double of the same sign with a 53-bit mantissa. *)
Lemma binary_round_aux_finite (s : bool) (q e : Z) (l : location) :
  2 ^ 52 <= q -> -1000 <= e -> Zdigits2 q + e <= 1000 ->
  exists m e',
    binary_round_aux prec emax s q e l = S754_finite s m e'
    /\ 2 ^ 52 <= Zpos m < 2 ^ 53
    /\ Zdigits2 q + e - 53 <= e' <= Zdigits2 q + e - 52.
Proof.
  intros Hq He Hhi.
  unfold binary_round_aux.
  destruct (shr_fexp_normalises q e l Hq He) as (mrs & e1 & E1 & Hm & He1).
  rewrite E1.
  pose proof (round_nearest_even_bounds (shr_m mrs) (loc_of_shr_record mrs))
    as Hr.
  set (m1 := round_nearest_even (shr_m mrs) (loc_of_shr_record mrs)) in *.
  pose proof (Zdigits2_ge q 52 ltac:(lia) Hq) as Hdq.
  destruct (shr_fexp_normalises m1 e1 loc_Exact ltac:(lia) ltac:(lia))
    as (mrs2 & e2 & E2 & Hm2 & He2).
  rewrite E2.
  pose proof (Zdigits2_le m1 54 ltac:(lia)) as Hd1.
  pose proof (Zdigits2_ge m1 52 ltac:(lia) ltac:(lia)) as Hd1'.
  destruct (shr_m mrs2) as [|m|m] eqn:Em; try lia.
  unfold prec, emax.
  destruct (Z.leb_spec e2 (1024 - 53)); [|lia].
  exists m, e2. repeat split; lia.
Qed.

Lemma pos_iter_xO (p n : positive) :
  Zpos (Pos.iter xO p n) = Zpos p * 2 ^ Zpos n.
Proof.
  induction n as [|n IH] using Pos.peano_ind.
  - cbn. lia.
  - rewrite Pos.iter_succ, Pos2Z.inj_xO, IH, Pos2Z.inj_succ,
      Z.pow_succ_r by lia. lia.
Qed.

(** An int from 1 to 2^53 - 1 converts to a positive double with a
    53-bit mantissa. *)
Lemma of_int_positive (k : Z) :
  1 <= k < 2 ^ 53 ->
  exists m e, of_int k = S754_finite false m e
              /\ 2 ^ 52 <= Zpos m < 2 ^ 53 /\ -52 <= e <= 1.
Proof.
  intros Hk. destruct k as [|p|p]; try lia.
  unfold of_int, binary_normalize, binary_round.
  pose proof (Zdigits2_bounds (Zpos p) ltac:(lia)) as Hd.
  assert (Hd1 : 1 <= Zdigits2 (Zpos p) <= 53).
  { split; [unfold Zdigits2; lia|apply Zdigits2_le; lia]. }
  change (Zpos (digits2_pos p)) with (Zdigits2 (Zpos p)).
  rewrite Z.add_0_r, fexp_normal by lia.
  set (d := Zdigits2 (Zpos p)) in *.
  assert (Hal : exists mz, shl_align p 0 (d - 53) = (mz, d - 53)
                           /\ Zpos mz = Zpos p * 2 ^ (53 - d)).
  { unfold shl_align.
    destruct (d - 53 - 0) as [|n|n] eqn:En; try lia.
    - exists p. replace (d - 53) with 0 by lia.
      replace (53 - d) with 0 by lia. split; [reflexivity|lia].
    - exists (Pos.iter xO p n). split; [reflexivity|].
      rewrite pos_iter_xO. f_equal. f_equal. lia. }
  destruct Hal as (mz & -> & Hmz).
  assert (Hp : 2 ^ (d - 1) * 2 ^ (53 - d) = 2 ^ 52).
  { rewrite <- Z.pow_add_r by lia. f_equal. lia. }
  assert (Hp' : 2 ^ d * 2 ^ (53 - d) = 2 ^ 53).
  { rewrite <- Z.pow_add_r by lia. f_equal. lia. }
  assert (Hpow : 0 < 2 ^ (53 - d)) by (apply Z.pow_pos_nonneg; lia).
  assert (Hmz' : 2 ^ 52 <= Zpos mz < 2 ^ 53) by nia.
  destruct (binary_round_aux_finite false (Zpos mz) (d - 53) loc_Exact)
    as (m & e' & E & Hm & He').
  - lia.
  - lia.
  - rewrite (Zdigits2_unique (Zpos mz) 53) by (cbn; lia). lia.
  - rewrite (Zdigits2_unique (Zpos mz) 53) in He' by (cbn; lia).
    exists m, e'. repeat split; try lia. exact E.
Qed.

(** The quotient of two positive doubles with 53-bit mantissas and
    small exponents is a positive finite double. *)
Lemma div_finite (ma mb : positive) (ea eb : Z) :
  2 ^ 52 <= Zpos ma < 2 ^ 53 -> 2 ^ 52 <= Zpos mb < 2 ^ 53 ->
  -100 <= ea <= 100 -> -100 <= eb <= 100 ->
  exists m e,
    (S754_finite false ma ea / S754_finite false mb eb)%dbl
    = S754_finite false m e.
Proof.
  intros Ha Hb Hea Heb.
  unfold Double.div, SFdiv, SFdiv_core_binary.
  rewrite (Zdigits2_unique (Zpos ma) 53), (Zdigits2_unique (Zpos mb) 53)
    by (cbn; lia).
  rewrite fexp_normal by lia.
  rewrite Z.min_l by lia.
  replace (ea - eb - (53 + ea - (53 + eb) - 53)) with 53 by lia.
  rewrite Z.shiftl_mul_pow2 by lia.
  pose proof (Z.div_eucl_eq (Zpos ma * 2 ^ 53) (Zpos mb) ltac:(lia)) as Hq.
  pose proof (Z.mod_pos_bound (Zpos ma * 2 ^ 53) (Zpos mb) ltac:(lia)) as Hr.
  unfold Z.modulo in Hr.
  destruct (Z.div_eucl (Zpos ma * 2 ^ 53) (Zpos mb)) as [q r].
  assert (Hq52 : 2 ^ 52 <= q) by nia.
  assert (Hq54 : q < 2 ^ 55) by nia.
  pose proof (Zdigits2_le q 55 ltac:(lia)) as Hdq.
  destruct (binary_round_aux_finite (xorb false false) q
              (53 + ea - (53 + eb) - 53) (new_location (Zpos mb) r))
    as (m & e' & E & _); try lia.
  exists m, e'. exact E.
Qed.

(** ** The loops *)

Section Itr.
Context {M : Libm}.

Lemma itr_chunk_does (lambda upow ex : double) (v v' : itr_vars) :
  itr_chunk lambda upow ex v = Ret v' ->
  L v' = (if (lambda >? upow)%dbl then ex
          else exp (of_int (pow v) - lambda)%dbl)
  /\ x v' = (x v * L v')%dbl
  /\ y v' = (y v * L v')%dbl
  /\ k v' = k v
  /\ pow v' = pow v + 500.
Proof.
  unfold itr_chunk, int_add.
  destruct (pow v + 500 <=? INT_MAX); cbn [bind]; [|discriminate].
  intros E. injection E as <-. cbn. repeat split.
Qed.

End Itr.

Lemma itr_inner_after_passes (n : nat) :
  forall (lambda u : double) (v v' : itr_vars),
    itr_inner_passes n lambda u v = Some v' ->
    forall fuel,
      itr_inner fuel lambda u v = OutOfFuel
      \/ exists f, itr_inner fuel lambda u v = itr_inner f lambda u v'.
Proof.
  induction n as [|n IH]; intros lambda u v v'; cbn [itr_inner_passes].
  - intros E fuel. injection E as <-. right. exists fuel. reflexivity.
  - destruct (u >? y v)%dbl eqn:Eg; [|discriminate].
    destruct (itr_body lambda v) as [v1| |] eqn:Eb; try discriminate.
    intros E [|fuel]; [left; reflexivity|].
    cbn [itr_inner]. rewrite Eg, Eb. cbn [bind].
    apply (IH lambda u v1 v' E).
Qed.

Lemma itr_inner_exits (lambda u : double) (v : itr_vars) (fuel : nat) :
  (u >? y v)%dbl = false ->
  itr_inner fuel lambda u v = OutOfFuel \/ itr_inner fuel lambda u v = Ret v.
Proof.
  intros Eg. destruct fuel as [|fuel]; [left; reflexivity|].
  right. cbn [itr_inner]. rewrite Eg. reflexivity.
Qed.

Lemma SFcompare_Eq_positive (m : positive) (e : Z) (b : double) :
  SFcompare (S754_finite false m e) b = Some Eq ->
  b = S754_finite false m e.
Proof.
  destruct b as [s|s| |s m' e']; cbn [SFcompare]; try discriminate.
  - destruct s; discriminate.
  - destruct s; [discriminate|].
    destruct (Z.compare_spec e e') as [->| |]; try discriminate.
    change (Pos.compare_cont Eq m m') with (Pos.compare m m').
    destruct (Pos.compare_spec m m') as [->| |]; try discriminate.
    reflexivity.
Qed.

(** On the first outer iteration, where pow = 0, the factor the code
    takes is the described one. *)
Lemma first_chunk_factor_as_described (M : Libm) (lambda : double) :
  (if (lambda >? d_500)%dbl then exp (- d_500)%dbl
   else exp (of_int 0 - lambda)%dbl)
  = described_chunk_factor lambda 0.
Proof.
  unfold described_chunk_factor.
  change (of_int 0 + d_500)%dbl with d_500.
  unfold Double.gtb, Double.leb, SFltb, SFleb.
  destruct (SFcompare d_500 lambda) as [[| |]|] eqn:E; try reflexivity.
  apply SFcompare_Eq_positive in E. subst lambda. reflexivity.
Qed.

(** A pass with x at +0 and y finite changes k only. *)
Lemma zero_term_pass (lambda : double) (ml : positive) (el : Z)
    (v : itr_vars) (my : positive) (ey : Z) :
  lambda = S754_finite false ml el ->
  2 ^ 52 <= Zpos ml < 2 ^ 53 -> -100 <= el <= 100 ->
  x v = S754_zero false -> y v = S754_finite false my ey ->
  0 <= k v < INT_MAX ->
  itr_body lambda v = Ret (ItrVars (L v) (x v) (y v) (k v + 1) (pow v)).
Proof.
  intros -> Hml Hel Hx Hy Hk. unfold itr_body, int_add.
  destruct (Z.leb_spec (k v + 1) INT_MAX); [|lia]. cbn [bind].
  unfold INT_MAX in *.
  destruct (of_int_positive (k v + 1) ltac:(lia))
    as (mk & ek & Ek & Hmk & Hek).
  rewrite Ek.
  destruct (div_finite ml mk el ek) as (m & e & Ed); try lia.
  rewrite Ed, Hx, Hy. reflexivity.
Qed.

(** From then on, with y below u, the inner loop cannot exit: it runs
    out of fuel or reaches the overflow of k. *)
Lemma zero_term_forever (lambda u : double) (ml : positive) (el : Z)
    (my : positive) (ey : Z) (fuel : nat) :
  lambda = S754_finite false ml el ->
  2 ^ 52 <= Zpos ml < 2 ^ 53 -> -100 <= el <= 100 ->
  (u >? S754_finite false my ey)%dbl = true ->
  forall v,
    x v = S754_zero false -> y v = S754_finite false my ey ->
    0 <= k v <= INT_MAX ->
    itr_inner fuel lambda u v = OutOfFuel
    \/ itr_inner fuel lambda u v = Undefined SignedOverflow.
Proof.
  intros Hl Hml Hel Hu.
  induction fuel as [|fuel IH]; intros v Hx Hy Hk; [left; reflexivity|].
  cbn [itr_inner]. rewrite Hy, Hu.
  destruct (Z.eq_dec (k v) INT_MAX) as [E|Hne].
  - right. unfold itr_body, int_add. rewrite E. reflexivity.
  - rewrite (zero_term_pass lambda ml el v my ey)
      by (try assumption; lia).
    cbn [bind]. apply IH; cbn [x y k]; try assumption. lia.
Qed.

(** ** The run at lambda = 700 *)

Lemma run_chunk1 :
  itr_chunk (M := Bench.table_Libm) Bench.d_700 Run.upow Run.ex itr_init
  = Ret Run.chunk1_start.
Proof. vm_compute. reflexivity. Qed.

Lemma run_inner1 :
  itr_inner_passes 246 Bench.d_700 d_0_5 Run.chunk1_start
  = Some Run.chunk1_end.
Proof. vm_compute. reflexivity. Qed.

Lemma run_chunk2 :
  itr_chunk (M := Bench.table_Libm) Bench.d_700 Run.upow Run.ex
    Run.chunk1_end
  = Ret Run.chunk2_start.
Proof. vm_compute. reflexivity. Qed.

Lemma run_inner2 :
  itr_inner_passes 1376 Bench.d_700 d_0_5 Run.chunk2_start
  = Some Run.stalled.
Proof. vm_compute. reflexivity. Qed.

Lemma run_inner1_outcome (fuel : nat) :
  itr_inner fuel Bench.d_700 d_0_5 Run.chunk1_start = OutOfFuel
  \/ itr_inner fuel Bench.d_700 d_0_5 Run.chunk1_start = Ret Run.chunk1_end.
Proof.
  destruct (itr_inner_after_passes _ _ _ _ _ run_inner1 fuel) as [E|[f E]].
  - left. exact E.
  - rewrite E. apply itr_inner_exits. reflexivity.
Qed.

Lemma run_inner2_outcome (fuel : nat) :
  itr_inner fuel Bench.d_700 d_0_5 Run.chunk2_start = OutOfFuel
  \/ itr_inner fuel Bench.d_700 d_0_5 Run.chunk2_start
     = Undefined SignedOverflow.
Proof.
  destruct (itr_inner_after_passes _ _ _ _ _ run_inner2 fuel) as [E|[f E]].
  - left. exact E.
  - rewrite E.
    eapply (zero_term_forever Bench.d_700 d_0_5); try reflexivity;
      unfold INT_MAX; cbn; lia.
Qed.

Lemma run_outer_outcome (fuel inner_fuel : nat) :
  itr_outer (M := Bench.table_Libm) fuel inner_fuel Bench.d_700 d_0_5
    Run.upow Run.ex itr_init = OutOfFuel
  \/ itr_outer (M := Bench.table_Libm) fuel inner_fuel Bench.d_700 d_0_5
       Run.upow Run.ex itr_init = Undefined SignedOverflow.
Proof.
  destruct fuel as [|fuel]; [left; reflexivity|].
  cbn [itr_outer]. rewrite run_chunk1. cbn [bind].
  destruct (run_inner1_outcome inner_fuel) as [E|E]; rewrite E; cbn [bind].
  { left. reflexivity. }
  change (of_int (pow Run.chunk1_end) <? Bench.d_700)%dbl with true.
  cbv iota.
  destruct fuel as [|fuel]; [left; reflexivity|].
  cbn [itr_outer]. rewrite run_chunk2. cbn [bind].
  destruct (run_inner2_outcome inner_fuel) as [E'|E']; rewrite E';
    cbn [bind]; [left|right]; reflexivity.
Qed.

(** C4.  A call that does not terminate: lambda = 700 (in (0, 1000),
    routed to [poisson_itr] by the chunked policy) with the draw
    u = 0.5.  Both chunks are scaled by exp(-500), so y climbs to about
    exp(-300) and stays there while x underflows to +0; the inner loop
    [while (u > y)] never exits, k runs up to INT_MAX and the next k++
    overflows.  Whatever the fuel, the call returns no value. *)
Theorem poisson_itr_never_returns :
  let st := Bench.Script [d_0_5] [] in
  let lambda := Bench.d_700 in
  (d_0 <? lambda)%dbl = true
  /\ (lambda <? d_1000)%dbl = true
  /\ rocrand_uniform_double st = (d_0_5, Bench.Script [] [])
  /\ (d_0 <=? d_0_5)%dbl = true
  /\ (d_0_5 <? d_1)%dbl = true
  /\ forall fuel,
       rocrand_poisson (M := Bench.table_Libm) mtgp32 fuel st lambda
       = poisson_itr (M := Bench.table_Libm) fuel st lambda
       /\ (poisson_itr (M := Bench.table_Libm) fuel st lambda = OutOfFuel
           \/ poisson_itr (M := Bench.table_Libm) fuel st lambda
              = Undefined SignedOverflow).
Proof.
  intros st lambda.
  do 5 (split; [reflexivity|]).
  intros fuel. split; [reflexivity|].
  unfold poisson_itr.
  change (rocrand_uniform_double st) with (d_0_5, Bench.Script [] []).
  cbv iota beta.
  change (of_int (pow itr_init) + d_500)%dbl with Run.upow.
  change (@exp Bench.table_Libm (- d_500)%dbl) with Run.ex.
  destruct (run_outer_outcome fuel fuel) as [E|E]; unfold lambda;
    rewrite E; [left|right]; reflexivity.
Qed.

(** C3.  What the head of the outer loop body does: [upow] is computed
    once, from pow = 0, and never advanced, so L is exp(-500) on every
    iteration as soon as lambda > 500, and exp(pow - lambda) otherwise;
    L is multiplied into x and y and pow advances by 500.  On the first
    iteration that is the described factor.  At
    lambda = 700 with the draw 0.5 the second iteration starts at
    pow = 500, the final partial chunk (pow + 500 > lambda), and takes
    L = exp(-500) where the description has exp(500 - 700). *)
Theorem itr_chunk_factor_is_stale :
  (forall (M : Libm) (lambda : double) (v v' : itr_vars),
     itr_chunk lambda (of_int (pow itr_init) + d_500)%dbl
       (exp (- d_500)%dbl) v = Ret v' ->
     L v' = (if (lambda >? d_500)%dbl then exp (- d_500)%dbl
             else exp (of_int (pow v) - lambda)%dbl)
     /\ x v' = (x v * L v')%dbl
     /\ y v' = (y v * L v')%dbl
     /\ pow v' = pow v + 500)
  /\ (forall (M : Libm) (lambda : double) (v' : itr_vars),
       itr_chunk lambda (of_int (pow itr_init) + d_500)%dbl
         (exp (- d_500)%dbl) itr_init = Ret v' ->
       L v' = described_chunk_factor lambda (pow itr_init))
  /\ (let lambda := Bench.d_700 in
      let u := d_0_5 in
      itr_chunk (M := Bench.table_Libm) lambda Run.upow Run.ex itr_init
      = Ret Run.chunk1_start
      /\ itr_inner 247 lambda u Run.chunk1_start = Ret Run.chunk1_end
      /\ (of_int (pow Run.chunk1_end) <? lambda)%dbl = true
      /\ pow Run.chunk1_end = 500
      /\ (of_int (pow Run.chunk1_end) + d_500 <=? lambda)%dbl = false
      /\ itr_chunk (M := Bench.table_Libm) lambda Run.upow Run.ex
           Run.chunk1_end = Ret Run.chunk2_start
      /\ L Run.chunk2_start = @exp Bench.table_Libm (- d_500)%dbl
      /\ described_chunk_factor (M := Bench.table_Libm) lambda
           (pow Run.chunk1_end)
         = @exp Bench.table_Libm (of_int 500 - lambda)%dbl
      /\ L Run.chunk2_start
         <> described_chunk_factor (M := Bench.table_Libm) lambda
              (pow Run.chunk1_end)).
Proof.
  split.
  - intros M lambda v v' E.
    apply itr_chunk_does in E.
    destruct E as (EL & Ex & Ey & _ & Ep).
    repeat split; assumption.
  - split.
    { intros M lambda v' E.
      apply itr_chunk_does in E. destruct E as (EL & _).
      rewrite EL. apply first_chunk_factor_as_described. }
    cbv zeta.
    split; [exact run_chunk1|].
    split; [vm_compute; reflexivity|].
    do 3 (split; [reflexivity|]).
    split; [exact run_chunk2|].
    split; [reflexivity|].
    split; [reflexivity|].
    vm_compute. discriminate.
Qed.

(** ** The run at lambda = 0.1 *)

Lemma near_one_chunk :
  itr_chunk (M := Bench.table_Libm) Bench.d_0_1 Run.upow Run.ex itr_init
  = Ret Run.near_one_start.
Proof. vm_compute. reflexivity. Qed.

Lemma near_one_inner :
  itr_inner_passes 122 Bench.d_0_1 Bench.below_one Run.near_one_start
  = Some Run.near_one_stalled.
Proof. vm_compute. reflexivity. Qed.

(** Rounding alone can keep the loop from exiting: at lambda = 0.1 the
    sum y stops at 1 - 2^-52 when x underflows, below the draw
    u = 1 - 2^-53. *)
Lemma poisson_itr_stalls_below_one :
  let st := Bench.Script [Bench.below_one] [] in
  let lambda := Bench.d_0_1 in
  (d_0 <? lambda)%dbl = true
  /\ (lambda <? d_500)%dbl = true
  /\ rocrand_uniform_double st = (Bench.below_one, Bench.Script [] [])
  /\ (d_0 <=? Bench.below_one)%dbl = true
  /\ (Bench.below_one <? d_1)%dbl = true
  /\ forall fuel,
       poisson_itr (M := Bench.table_Libm) fuel st lambda = OutOfFuel
       \/ poisson_itr (M := Bench.table_Libm) fuel st lambda
          = Undefined SignedOverflow.
Proof.
  intros st lambda.
  do 5 (split; [reflexivity|]).
  intros fuel. unfold poisson_itr.
  change (rocrand_uniform_double st)
    with (Bench.below_one, Bench.Script [] []).
  cbv iota beta.
  change (of_int (pow itr_init) + d_500)%dbl with Run.upow.
  change (@exp Bench.table_Libm (- d_500)%dbl) with Run.ex.
  unfold lambda.
  destruct fuel as [|fuel]; [left; reflexivity|].
  cbn [itr_outer]. rewrite near_one_chunk. cbn [bind].
  destruct (itr_inner_after_passes _ _ _ _ _ near_one_inner (S fuel))
    as [E|[f E]]; rewrite E.
  - left. reflexivity.
  - destruct (zero_term_forever Bench.d_0_1 Bench.below_one
                7205759403792794 (-56) 9007199254740990 (-53) f)
      with (v := Run.near_one_stalled) as [E'|E'];
      try reflexivity; try (unfold INT_MAX; cbn; lia);
      rewrite E'; [left|right]; reflexivity.
Qed.

(* ================================================================== *)
(** * Draws, faults and ranges of the samplers *)
(* ================================================================== *)

(** ** What a returning call has drawn *)

Section Draws.
Context {M : Libm} {State : Type} {G : Generator State}.

Lemma counted_uniform (cst : counted State) :
  rocrand_uniform_double cst
  = (fst (rocrand_uniform_double (gen cst)),
     Counted (snd (rocrand_uniform_double (gen cst)))
       (S (uniforms_drawn cst)) (normals_drawn cst)).
Proof.
  cbn. destruct (rocrand_uniform_double (gen cst)). reflexivity.
Qed.

Lemma counted_normal (cst : counted State) :
  rocrand_normal_double cst
  = (fst (rocrand_normal_double (gen cst)),
     Counted (snd (rocrand_normal_double (gen cst)))
       (uniforms_drawn cst) (S (normals_drawn cst))).
Proof.
  cbn. destruct (rocrand_normal_double (gen cst)). reflexivity.
Qed.

Lemma small_loop_draws (fuel : nat) :
  forall (limit : double) (k0 : Z) (p : double) (cst : counted State)
         (k' : Z) (cst' : counted State),
    small_loop fuel limit k0 p cst = Ret (k', cst') ->
    normals_drawn cst' = normals_drawn cst
    /\ exists n, (1 <= n)%nat
                 /\ uniforms_drawn cst' = (uniforms_drawn cst + n)%nat
                 /\ k' = uint_wrap (k0 + Z.of_nat n).
Proof.
  induction fuel as [|fuel IH]; intros limit k0 p cst k' cst';
    cbn [small_loop]; [discriminate|].
  rewrite counted_uniform.
  destruct (_ >? limit)%dbl.
  - intros E. apply IH in E. cbn [normals_drawn uniforms_drawn] in E.
    destruct E as (Hn & n & Hn1 & Hu & Hk).
    split; [exact Hn|]. exists (S n). repeat split; try lia.
    rewrite Hk, uint_wrap_add_l. f_equal. lia.
  - intros E. injection E as <- <-. cbn [normals_drawn uniforms_drawn].
    split; [reflexivity|]. exists 1%nat. repeat split; lia.
Qed.

Lemma small_draws (fuel : nat) (cst : counted State) (lambda : double)
    (v : Z) (cst' : counted State) :
  poisson_distribution_small fuel cst lambda = Ret (v, cst') ->
  normals_drawn cst' = normals_drawn cst
  /\ (uniforms_drawn cst < uniforms_drawn cst')%nat.
Proof.
  unfold poisson_distribution_small. intros E.
  apply bind_Ret_inv in E. destruct E as [[k' cst1] [E1 E2]].
  injection E2 as _ <-.
  apply small_loop_draws in E1.
  destruct E1 as (Hn & n & Hn1 & Hu & _). lia.
Qed.

(** X2.  Whenever [poisson_distribution_small] returns, its value is
    the number of uniform draws it has made, less one, modulo 2^32; it
    has made at least one uniform draw and no normal draw. *)
Theorem poisson_distribution_small_returns_draws_minus_one
    (fuel : nat) (cst : counted State) (lambda : double)
    (v : Z) (cst' : counted State) :
  poisson_distribution_small fuel cst lambda = Ret (v, cst') ->
  normals_drawn cst' = normals_drawn cst
  /\ (uniforms_drawn cst < uniforms_drawn cst')%nat
  /\ v = (Z.of_nat (uniforms_drawn cst' - uniforms_drawn cst) - 1)
         mod 2 ^ 32.
Proof.
  unfold poisson_distribution_small. intros E.
  apply bind_Ret_inv in E. destruct E as [[k' cst1] [E1 E2]].
  injection E2 as <- <-.
  apply small_loop_draws in E1.
  destruct E1 as (Hn & n & Hn1 & Hu & Hk).
  split; [exact Hn|]. split; [lia|].
  replace (uniforms_drawn cst1 - uniforms_drawn cst)%nat with n by lia.
  rewrite Hk, uint_wrap_sub_1. unfold uint_wrap, UINT_MODULUS.
  f_equal.
Qed.

Lemma large_loop_draws (fuel : nat) :
  forall (alpha beta k0 log_lambda : double) (cst : counted State)
         (v : Z) (cst' : counted State),
    large_loop fuel alpha beta k0 log_lambda cst = Ret (v, cst') ->
    normals_drawn cst' = normals_drawn cst
    /\ (uniforms_drawn cst + 2 <= uniforms_drawn cst')%nat.
Proof.
  induction fuel as [|fuel IH]; intros alpha beta k0 log_lambda cst v cst';
    cbn [large_loop]; [discriminate|].
  rewrite counted_uniform.
  match goal with |- context [if ?b then _ else _] => destruct b end.
  - intros E. apply IH in E. cbn [normals_drawn uniforms_drawn] in E. lia.
  - rewrite counted_uniform.
    match goal with |- context [if ?b then _ else _] => destruct b end.
    + intros E. apply bind_Ret_inv in E. destruct E as [r [_ E]].
      injection E as _ <-. cbn [normals_drawn uniforms_drawn]. lia.
    + intros E. apply IH in E. cbn [normals_drawn uniforms_drawn] in E. lia.
Qed.

(** X3.  Whenever [poisson_distribution_large] returns, it has made at
    least two uniform draws, the u and the v of the accepted candidate,
    and no normal draw. *)
Theorem poisson_distribution_large_draws (fuel : nat)
    (cst : counted State) (lambda : double) (v : Z)
    (cst' : counted State) :
  poisson_distribution_large fuel cst lambda = Ret (v, cst') ->
  normals_drawn cst' = normals_drawn cst
  /\ (uniforms_drawn cst + 2 <= uniforms_drawn cst')%nat.
Proof. apply large_loop_draws. Qed.

Lemma poisson_itr_state (fuel : nat) (st : State) (lambda : double)
    (r : Z) (st' : State) :
  poisson_itr fuel st lambda = Ret (r, st') ->
  st' = snd (rocrand_uniform_double st).
Proof.
  unfold poisson_itr.
  destruct (rocrand_uniform_double st) as [u st1].
  intros E. apply bind_Ret_inv in E. destruct E as [v [_ E]].
  injection E as _ <-. reflexivity.
Qed.

End Draws.

Section ApiDraws.
Context {M : Libm} {State : Type} {G : Generator State}.

Lemma huge_draws (cst : counted State) (lambda : double) (v : Z)
    (cst' : counted State) :
  poisson_distribution_huge cst lambda = Ret (v, cst') ->
  normals_drawn cst' = S (normals_drawn cst)
  /\ uniforms_drawn cst' = uniforms_drawn cst.
Proof.
  unfold poisson_distribution_huge. rewrite counted_normal.
  intros E. apply bind_Ret_inv in E. destruct E as [r [_ E]].
  injection E as _ <-. split; reflexivity.
Qed.

(** X1.  A returning call of [rocrand_poisson], whatever the engine and
    lambda, has drawn from one source only: uniform draws, at least one,
    and no normal draw; or exactly one normal draw and no uniform draw. *)
Theorem rocrand_poisson_draws (e : engine) (fuel : nat)
    (cst : counted State) (lambda : double) (v : Z) (cst' : counted State) :
  rocrand_poisson e fuel cst lambda = Ret (v, cst') ->
  (normals_drawn cst' = normals_drawn cst
   /\ (uniforms_drawn cst < uniforms_drawn cst')%nat)
  \/ (normals_drawn cst' = S (normals_drawn cst)
      /\ uniforms_drawn cst' = uniforms_drawn cst).
Proof.
  assert (Hitr : poisson_itr fuel cst lambda = Ret (v, cst') ->
                 normals_drawn cst' = normals_drawn cst
                 /\ (uniforms_drawn cst < uniforms_drawn cst')%nat).
  { intros E. apply poisson_itr_state in E. subst cst'.
    rewrite counted_uniform. cbn. lia. }
  unfold rocrand_poisson, poisson_distribution, _poisson_distribution.
  destruct e.
  all: try (destruct (lambda <? lambda_threshold_small)%dbl;
            [intros E; left; apply small_draws in E; exact E|];
            destruct (lambda <=? lambda_threshold_huge)%dbl;
            [intros E; left; apply large_loop_draws in E; lia|];
            intros E; right; apply huge_draws in E; exact E).
  all: destruct (lambda <? d_1000)%dbl;
    [intros E; left; apply Hitr; exact E|];
    intros E; right; apply huge_draws in E; exact E.
Qed.

(** X4.  A returning call of [rocrand_poisson4] has made at least four
    uniform draws and no normal draw, or exactly four normal draws and no
    uniform draw: its four samples never mix the two sources. *)
Theorem rocrand_poisson4_draws (fuel : nat) (cst : counted State)
    (lambda : double) (v : uint4) (cst' : counted State) :
  rocrand_poisson4 fuel cst lambda = Ret (v, cst') ->
  (normals_drawn cst' = normals_drawn cst
   /\ (uniforms_drawn cst + 4 <= uniforms_drawn cst')%nat)
  \/ (normals_drawn cst' = (normals_drawn cst + 4)%nat
      /\ uniforms_drawn cst' = uniforms_drawn cst).
Proof.
  unfold rocrand_poisson4. intros E.
  apply bind_Ret_inv in E. destruct E as [[a c1] [Ea E]].
  apply bind_Ret_inv in E. destruct E as [[b c2] [Eb E]].
  apply bind_Ret_inv in E. destruct E as [[c c3] [Ec E]].
  apply bind_Ret_inv in E. destruct E as [[d c4] [Ed E]].
  injection E as _ <-.
  revert Ea Eb Ec Ed. unfold poisson_distribution.
  destruct (lambda <? lambda_threshold_small)%dbl.
  - intros Ea Eb Ec Ed. left.
    apply small_draws in Ea, Eb, Ec, Ed. lia.
  - destruct (lambda <=? lambda_threshold_huge)%dbl.
    + intros Ea Eb Ec Ed. left.
      apply large_loop_draws in Ea, Eb, Ec, Ed. lia.
    + intros Ea Eb Ec Ed. right.
      apply huge_draws in Ea, Eb, Ec, Ed. lia.
Qed.

End ApiDraws.

(** Knuth's method at lambda = 1 with the draws 0.5 and 0.5: the
    product falls to 0.25, below exp(-1), at the second draw. *)
Lemma poisson_distribution_small_returns_draws_minus_one_witness :
  let cst := Counted (Bench.Script [d_0_5; d_0_5] []) 0 0 in
  let cst' := Counted (Bench.Script [] []) 2 0 in
  normals_drawn cst' = normals_drawn cst
  /\ (uniforms_drawn cst < uniforms_drawn cst')%nat
  /\ 1 = (Z.of_nat (uniforms_drawn cst' - uniforms_drawn cst) - 1)
         mod 2 ^ 32.
Proof.
  intros cst cst'.
  apply (poisson_distribution_small_returns_draws_minus_one
           (M := Bench.table_Libm) 2 cst d_1 1 cst').
  vm_compute. reflexivity.
Defined.

(** The rejection method at lambda = 100 with the draws 0.5 and 0.5:
    the first candidate, 100, is accepted. *)
Lemma poisson_distribution_large_draws_witness :
  let cst := Counted (Bench.Script [d_0_5; d_0_5] []) 0 0 in
  let cst' := Counted (Bench.Script [] []) 2 0 in
  normals_drawn cst' = normals_drawn cst
  /\ (uniforms_drawn cst + 2 <= uniforms_drawn cst')%nat.
Proof.
  intros cst cst'.
  apply (poisson_distribution_large_draws (M := Tables.sample_Libm)
           1 cst Tables.d_100 100 cst').
  vm_compute. reflexivity.
Defined.

(** The normal approximation at lambda = 5000 with the draw 1. *)
Lemma rocrand_poisson_draws_witness :
  let cst := Counted (Bench.Script [] [d_1]) 0 0 in
  let cst' := Counted (Bench.Script [] []) 0 1 in
  (normals_drawn cst' = normals_drawn cst
   /\ (uniforms_drawn cst < uniforms_drawn cst')%nat)
  \/ (normals_drawn cst' = S (normals_drawn cst)
      /\ uniforms_drawn cst' = uniforms_drawn cst).
Proof.
  intros cst cst'.
  apply (rocrand_poisson_draws (M := Bench.table_Libm)
           mtgp32 3 cst Bench.d_5000 5071 cst').
  vm_compute. reflexivity.
Defined.

(** Four samples at lambda = 5000 with the normal draws 1, 0, 0.5, 1. *)
Lemma rocrand_poisson4_draws_witness :
  let cst := Counted (Bench.Script [] [d_1; d_0; d_0_5; d_1]) 0 0 in
  let cst' := Counted (Bench.Script [] []) 0 4 in
  (normals_drawn cst' = normals_drawn cst
   /\ (uniforms_drawn cst + 4 <= uniforms_drawn cst')%nat)
  \/ (normals_drawn cst' = (normals_drawn cst + 4)%nat
      /\ uniforms_drawn cst' = uniforms_drawn cst).
Proof.
  intros cst cst'.
  apply (rocrand_poisson4_draws (M := Bench.table_Libm)
           3 cst Bench.d_5000 (Uint4 5071 5000 5035 5071) cst').
  vm_compute. reflexivity.
Defined.

(** ** Undefined behaviour, path by path *)

(** No double above 4000.0 is below 1000.0. *)
Lemma huge_not_below_1000 (lambda : double) :
  (lambda_threshold_huge <? lambda)%dbl = true ->
  (lambda <? d_1000)%dbl = false.
Proof.
  unfold Double.ltb, SFltb, lambda_threshold_huge, d_1000.
  destruct lambda as [s|s| |s m e]; cbn [SFcompare]; try discriminate;
    try (destruct s; intros; try discriminate; reflexivity).
  destruct s; [discriminate|].
  destruct (Z.compare_spec (-41) e), (Z.compare_spec e (-43));
    try discriminate; try reflexivity; try lia.
Qed.

Section Faults.
Context {M : Libm} {State : Type} {G : Generator State}.

Lemma cast_then_Ret_fault (d : double) (st : State) (f : fault) :
  (r <- static_cast_uint d ;; Ret (r, st)) = Undefined f ->
  f <> SignedOverflow.
Proof.
  unfold static_cast_uint. intros E Hf. subst f.
  destruct (trunc d) as [z|];
    [destruct (z <? 0); [|destruct (z <? UINT_MODULUS)]
    |destruct d as [s|[|]| |s m e]];
    cbn in E; discriminate E.
Qed.

Lemma large_loop_fault (fuel : nat) :
  forall (alpha beta k0 log_lambda : double) (st : State) (f : fault),
    large_loop fuel alpha beta k0 log_lambda st = Undefined f ->
    f = UnsignedOutOfRange.
Proof.
  induction fuel as [|fuel IH]; intros alpha beta k0 log_lambda st f;
    cbn [large_loop]; [discriminate|].
  destruct (rocrand_uniform_double st) as [u st1].
  match goal with |- context [if ?b then _ else _] =>
    destruct b eqn:Eneg end; [apply IH|].
  destruct (rocrand_uniform_double st1) as [v st2].
  match goal with |- context [if ?b then _ else _] =>
    destruct b end; [|apply IH].
  intros E.
  pose proof (cast_then_Ret_fault _ _ _ E) as H1.
  destruct (cast_then_Ret _ st2 Eneg) as [H2 _].
  destruct f; congruence.
Qed.

(** X5.  The undefined behaviour each sampler can run into, whatever
    the math library and the generator: [poisson_distribution_small]
    none; [poisson_distribution_large] only the conversion to unsigned
    int of a candidate of 2^32 or more; [poisson_itr] only the overflow
    of its int counters; [poisson_distribution_huge] never an int
    overflow. *)
Theorem samplers_faults (fuel : nat) (st : State) (lambda : double)
    (f : fault) :
  poisson_distribution_small fuel st lambda <> Undefined f
  /\ (poisson_distribution_large fuel st lambda = Undefined f ->
      f = UnsignedOutOfRange)
  /\ (poisson_itr fuel st lambda = Undefined f -> f = SignedOverflow)
  /\ poisson_distribution_huge st lambda <> Undefined SignedOverflow.
Proof.
  split; [|split; [|split]].
  - destruct (small_outcome fuel st lambda) as [E|(v & st' & E & _)];
      rewrite E; discriminate.
  - apply large_loop_fault.
  - unfold poisson_itr.
    destruct (rocrand_uniform_double st) as [u st1].
    match goal with |- context [itr_outer ?a ?b ?c ?d ?e ?g ?h] =>
      pose proof (itr_outer_outcome a b c d e g h) as Hout;
      destruct (itr_outer a b c d e g h) as [v'|f'|] end; cbn;
      try discriminate.
    intros E. injection E as <-. apply Hout. reflexivity.
  - unfold poisson_distribution_huge.
    destruct (rocrand_normal_double st) as [z st1].
    intros E. apply cast_then_Ret_fault in E. congruence.
Qed.

(** X6.  Above 4000, and at NaN, the engine makes no difference: every
    overload of [rocrand_poisson] is [poisson_distribution_huge]. *)
Theorem policies_agree_above_4000 (e1 e2 : engine) (fuel : nat)
    (st : State) (lambda : double) :
  (lambda >? lambda_threshold_huge)%dbl = true \/ lambda = S754_nan ->
  rocrand_poisson e1 fuel st lambda = poisson_distribution_huge st lambda
  /\ rocrand_poisson e1 fuel st lambda = rocrand_poisson e2 fuel st lambda.
Proof.
  intros H.
  assert (Hall : forall e,
            rocrand_poisson e fuel st lambda
            = poisson_distribution_huge st lambda).
  { intros e.
    unfold rocrand_poisson, poisson_distribution, _poisson_distribution.
    destruct H as [H| ->].
    - unfold Double.gtb in H.
      rewrite (huge_not_below_1000 lambda H).
      rewrite (ltb_true_leb_false _ _ H).
      destruct (lambda <? lambda_threshold_small)%dbl eqn:Es.
      + exfalso. exact (small_huge_disjoint lambda Es H).
      + destruct e; reflexivity.
    - destruct e; reflexivity. }
  split; [apply Hall|]. rewrite !Hall. reflexivity.
Qed.

End Faults.

(** lambda = 5000, for the philox and the mtgp32 overloads. *)
Lemma policies_agree_above_4000_witness :
  let st := Bench.Script [] [d_1] in
  rocrand_poisson (M := Bench.table_Libm) philox4x32_10 0 st Bench.d_5000
  = poisson_distribution_huge (M := Bench.table_Libm) st Bench.d_5000
  /\ rocrand_poisson (M := Bench.table_Libm) philox4x32_10 0 st
       Bench.d_5000
     = rocrand_poisson (M := Bench.table_Libm) mtgp32 0 st Bench.d_5000.
Proof.
  intros st.
  apply (policies_agree_above_4000 (M := Bench.table_Libm)
           philox4x32_10 mtgp32 0 st Bench.d_5000).
  left. reflexivity.
Defined.

(** ** The chunked sampler up to 500 *)

Section ItrPasses.
Context {M : Libm} {State : Type} {G : Generator State}.

Lemma itr_body_k (lambda : double) (v v' : itr_vars) :
  itr_body lambda v = Ret v' ->
  k v' = k v + 1 /\ k v' <= INT_MAX /\ pow v' = pow v.
Proof.
  unfold itr_body, int_add.
  destruct (Z.leb_spec (k v + 1) INT_MAX); cbn [bind]; [|discriminate].
  intros E. injection E as <-. cbn [k pow]. repeat split; lia.
Qed.

Lemma itr_inner_passes_k (n : nat) :
  forall (lambda u : double) (v v' : itr_vars),
    itr_inner_passes n lambda u v = Some v' ->
    k v' = k v + Z.of_nat n
    /\ (k v <= INT_MAX -> k v' <= INT_MAX)
    /\ pow v' = pow v.
Proof.
  induction n as [|n IH]; intros lambda u v v'; cbn [itr_inner_passes].
  - intros E. injection E as <-. repeat split; lia.
  - destruct (u >? y v)%dbl; [|discriminate].
    destruct (itr_body lambda v) as [v1| |] eqn:Eb; try discriminate.
    intros E. apply IH in E. apply itr_body_k in Eb.
    destruct E as (E1 & E2 & E3), Eb as (B1 & B2 & B3).
    repeat split; try intros _; lia.
Qed.

Lemma itr_inner_passes_exit (n : nat) :
  forall (lambda u : double) (v v' : itr_vars) (fuel : nat),
    itr_inner_passes n lambda u v = Some v' ->
    (u >? y v')%dbl = false ->
    (n < fuel)%nat ->
    itr_inner fuel lambda u v = Ret v'.
Proof.
  induction n as [|n IH]; intros lambda u v v' fuel; cbn [itr_inner_passes].
  - intros E Hg Hf. injection E as <-.
    destruct fuel as [|fuel]; [lia|]. cbn [itr_inner]. rewrite Hg.
    reflexivity.
  - destruct (u >? y v)%dbl eqn:Eg; [|discriminate].
    destruct (itr_body lambda v) as [v1| |] eqn:Eb; try discriminate.
    intros E Hg Hf. destruct fuel as [|fuel]; [lia|].
    cbn [itr_inner]. rewrite Eg, Eb. cbn [bind].
    apply (IH lambda u v1 v' fuel E Hg). lia.
Qed.

(** X7.  For lambda <= 500 [poisson_itr] is one chunk: it starts x and
    y at exp(-lambda), and when the inner loop leaves after n passes, the
    first n with u <= y, the call returns n, having made its one uniform
    draw. *)
Theorem poisson_itr_counts_passes (fuel n : nat) (st : State)
    (lambda : double) (v' : itr_vars) :
  let u := fst (rocrand_uniform_double st) in
  let L0 := exp (of_int 0 - lambda)%dbl in
  (lambda <=? d_500)%dbl = true ->
  itr_inner_passes n lambda u
    (ItrVars L0 (d_1 * L0)%dbl (d_1 * L0)%dbl 0 500) = Some v' ->
  (u >? y v')%dbl = false ->
  (n < fuel)%nat ->
  poisson_itr fuel st lambda
  = Ret (Z.of_nat n, snd (rocrand_uniform_double st)).
Proof.
  intros u L0 Hle Hpass Hexit Hfuel.
  unfold poisson_itr. subst u.
  destruct (rocrand_uniform_double st) as [u st1]. cbn [fst snd] in *.
  destruct fuel as [|fuel]; [lia|].
  cbn [itr_outer]. unfold itr_chunk.
  change (of_int (pow itr_init) + d_500)%dbl with d_500.
  change (lambda >? d_500)%dbl with (d_500 <? lambda)%dbl.
  rewrite (leb_true_ltb_false _ _ Hle).
  change (int_add (pow itr_init) 500) with (Ret (A := Z) 500).
  cbn [bind].
  change (of_int (pow itr_init)) with (of_int 0).
  change (x itr_init) with d_1. change (y itr_init) with d_1.
  change (k itr_init) with 0.
  fold L0.
  rewrite (itr_inner_passes_exit n lambda u _ v' (S fuel) Hpass Hexit Hfuel).
  cbn [bind].
  destruct (itr_inner_passes_k n lambda u _ v' Hpass) as (Hk & Hmax & Hpow).
  cbn [k pow] in Hk, Hmax, Hpow.
  rewrite Hpow.
  change (of_int 500) with d_500.
  rewrite (leb_true_ltb_false _ _ Hle). cbn [bind].
  unfold uint_wrap, UINT_MODULUS. rewrite Hk.
  specialize (Hmax ltac:(unfold INT_MAX; lia)). unfold INT_MAX in Hmax.
  rewrite Z.mod_small by lia. do 2 f_equal.
Qed.

Lemma itr_inner_k_range (fuel : nat) :
  forall (lambda u : double) (v v' : itr_vars),
    itr_inner fuel lambda u v = Ret v' ->
    0 <= k v <= INT_MAX -> 0 <= k v' <= INT_MAX.
Proof.
  induction fuel as [|fuel IH]; intros lambda u v v'; cbn [itr_inner];
    [discriminate|].
  destruct (u >? y v)%dbl.
  - destruct (itr_body lambda v) as [v1| |] eqn:Eb; cbn [bind];
      try discriminate.
    intros E Hk. apply (IH _ _ _ _ E). apply itr_body_k in Eb. lia.
  - intros E Hk. injection E as <-. exact Hk.
Qed.

Lemma itr_outer_k_range (fuel inner_fuel : nat) :
  forall (lambda u upow ex : double) (v v' : itr_vars),
    itr_outer fuel inner_fuel lambda u upow ex v = Ret v' ->
    0 <= k v <= INT_MAX -> 0 <= k v' <= INT_MAX.
Proof.
  induction fuel as [|fuel IH]; intros lambda u upow ex v v';
    cbn [itr_outer]; [discriminate|].
  destruct (itr_chunk lambda upow ex v) as [v1| |] eqn:Ec; cbn [bind];
    try discriminate.
  destruct (itr_inner inner_fuel lambda u v1) as [v2| |] eqn:Ei;
    cbn [bind]; try discriminate.
  intros E Hk.
  assert (Hk1 : k v1 = k v).
  { revert Ec. unfold itr_chunk, int_add.
    destruct (pow v + 500 <=? INT_MAX); cbn [bind]; [|discriminate].
    intros E'. injection E' as <-. reflexivity. }
  pose proof (itr_inner_k_range _ _ _ _ _ Ei ltac:(lia)) as Hk2.
  destruct (of_int (pow v2) <? lambda)%dbl.
  - apply (IH _ _ _ _ _ _ E Hk2).
  - injection E as <-. exact Hk2.
Qed.

(** X8.  A value [poisson_itr] returns lies between 0 and 2^31 - 1:
    its counter is an int, and the conversion to unsigned int at the
    return changes nothing. *)
Theorem poisson_itr_at_most_INT_MAX (fuel : nat) (st : State)
    (lambda : double) (v : Z) (st' : State) :
  poisson_itr fuel st lambda = Ret (v, st') -> 0 <= v <= 2 ^ 31 - 1.
Proof.
  unfold poisson_itr.
  destruct (rocrand_uniform_double st) as [u st1].
  intros E. apply bind_Ret_inv in E. destruct E as [v' [E1 E2]].
  injection E2 as <- _.
  apply itr_outer_k_range in E1; [|cbn; unfold INT_MAX; lia].
  unfold INT_MAX in E1. unfold uint_wrap, UINT_MODULUS.
  rewrite Z.mod_small; lia.
Qed.

End ItrPasses.

(** lambda = 1 with the draw 0.5: exp(-1) is below 0.5 and
    2 exp(-1) is not, so the inner loop leaves after one pass. *)
Lemma poisson_itr_counts_passes_witness :
  let st := Bench.Script [d_0_5] [] in
  poisson_itr (M := Bench.table_Libm) 3 st d_1
  = Ret (1, snd (rocrand_uniform_double st)).
Proof.
  intros st.
  apply (poisson_itr_counts_passes (M := Bench.table_Libm)
           3 1 st d_1 Tables.one_pass).
  - reflexivity.
  - vm_compute. reflexivity.
  - reflexivity.
  - lia.
Defined.

Lemma poisson_itr_at_most_INT_MAX_witness : 0 <= 1 <= 2 ^ 31 - 1.
Proof.
  apply (poisson_itr_at_most_INT_MAX (M := Bench.table_Libm)
           3 (Bench.Script [d_0_5] []) d_1 1 (Bench.Script [] [])).
  vm_compute. reflexivity.
Defined.

(** ** No negative quantity is converted, but for two cases *)

Lemma cast_negative_iff (d : double) :
  static_cast_uint d = Undefined NegativeToUnsigned
  <-> truncates_below_zero d.
Proof.
  unfold static_cast_uint, truncates_below_zero.
  destruct (trunc d) as [t|].
  - destruct (Z.ltb_spec t 0).
    + split; [intros _; assumption|reflexivity].
    + split; [|lia].
      destruct (t <? UINT_MODULUS); discriminate.
  - destruct d as [s|[|]| |s m e]; split; try discriminate; reflexivity.
Qed.

Section Conversions.
Context {M : Libm} {State : Type} {G : Generator State}.

Lemma rocrand_poisson_route (e : engine) (fuel : nat) (st : State)
    (lambda : double) :
  rocrand_poisson e fuel st lambda
  = match route e lambda with
    | to_small => poisson_distribution_small fuel st lambda
    | to_large => poisson_distribution_large fuel st lambda
    | to_huge => poisson_distribution_huge st lambda
    | to_itr => poisson_itr fuel st lambda
    end.
Proof.
  unfold rocrand_poisson, route, poisson_distribution,
    _poisson_distribution.
  destruct e;
    try (destruct (lambda <? lambda_threshold_small)%dbl; [reflexivity|];
         destruct (lambda <=? lambda_threshold_huge)%dbl; reflexivity);
    destruct (lambda <? d_1000)%dbl; reflexivity.
Qed.

Lemma huge_negative_iff (st : State) (lambda : double) :
  poisson_distribution_huge st lambda = Undefined NegativeToUnsigned
  <-> truncates_below_zero (huge_operand st lambda).
Proof.
  unfold poisson_distribution_huge, huge_operand.
  destruct (rocrand_normal_double st) as [z st1]. cbn [fst].
  rewrite <- cast_negative_iff.
  destruct (static_cast_uint _) as [r|f|]; cbn [bind]; split;
    try discriminate; intros E; injection E as ->; reflexivity.
Qed.

Lemma huge_returns (st : State) (lambda : double) (v : Z) (st' : State) :
  poisson_distribution_huge st lambda = Ret (v, st') ->
  trunc (huge_operand st lambda) = Some v /\ 0 <= v < 2 ^ 32.
Proof.
  unfold poisson_distribution_huge, huge_operand.
  destruct (rocrand_normal_double st) as [z st1]. cbn [fst].
  unfold static_cast_uint.
  destruct (trunc _) as [t|].
  - destruct (Z.ltb_spec t 0); [discriminate|].
    destruct (Z.ltb_spec t UINT_MODULUS); [|discriminate].
    cbn [bind]. intros E. injection E as <- _.
    unfold UINT_MODULUS in *. split; [reflexivity|lia].
  - match goal with |- context [match ?d with _ => _ end] =>
      destruct d as [s|[|]| |s m e] end; discriminate.
Qed.

Lemma small_returns (fuel : nat) (st : State) (lambda : double) (v : Z)
    (st' : State) :
  poisson_distribution_small fuel st lambda = Ret (v, st') ->
  exists k,
    small_loop fuel (exp (- lambda)%dbl) 0 d_1 st = Ret (k, st')
    /\ v = uint_wrap (k - 1)
    /\ (1 <= k -> v = k - 1).
Proof.
  unfold poisson_distribution_small. intros E.
  destruct (small_loop_outcome fuel (exp (- lambda)%dbl) 0 d_1 st)
    as [E1|(k & st1 & E1 & Hk)]; rewrite E1 in E; [discriminate|].
  cbn [bind] in E. injection E as <- <-.
  exists k. split; [exact E1|]. split; [reflexivity|].
  intros Hk1. unfold uint_wrap, UINT_MODULUS. apply Z.mod_small. lia.
Qed.

Lemma itr_returns (fuel : nat) (st : State) (lambda : double) (v : Z)
    (st' : State) :
  poisson_itr fuel st lambda = Ret (v, st') -> 0 <= v <= INT_MAX.
Proof.
  unfold poisson_itr.
  destruct (rocrand_uniform_double st) as [u st1].
  intros E. apply bind_Ret_inv in E. destruct E as [v' [E1 E2]].
  injection E2 as <- _.
  apply itr_outer_k_range in E1; [|cbn; unfold INT_MAX; lia].
  unfold INT_MAX in *. unfold uint_wrap, UINT_MODULUS.
  rewrite Z.mod_small; lia.
Qed.

(** C8 (as amended).  For every lambda and any draw source, under
    either dispatch policy:

    - [rocrand_poisson] converts a negative double to unsigned int in
      one case only, which nothing guards against: it is routed to the
      normal approximation and round(sqrt(lambda) z + lambda) is -1 or
      less (or minus infinity).  The Large-Lambda sampler converts n
      only after the n < 0 rejection.
    - On the Small-Lambda path, when n draws are taken the counter at
      loop exit is k = n mod 2^32 and the call returns k - 1 computed
      in unsigned int.  Unless n is a multiple of 2^32, k >= 1 and
      k - 1 does not wrap; when n is a multiple of 2^32, k = 0 and
      k - 1 wraps to 2^32 - 1.
    - A value it returns lies in 0 .. 2^32 - 1 and is the quantity the
      path computed: k - 1 for Knuth's counter k >= 1, the int counter
      of the chunked sampler, which is at most 2^31 - 1 (no negative
      int is converted), the truncation of the rounded value on the
      normal approximation. *)
Theorem rocrand_poisson_never_negative (e : engine) (fuel : nat)
    (st : State) (lambda : double) :
  (rocrand_poisson e fuel st lambda = Undefined NegativeToUnsigned
   <-> route e lambda = to_huge
       /\ truncates_below_zero (huge_operand st lambda))
  /\ poisson_distribution_large fuel st lambda
       <> Undefined NegativeToUnsigned
  /\ (route e lambda = to_small ->
      forall n,
        first_failure n (exp (- lambda)%dbl) st ->
        (n <= fuel)%nat ->
        let k := Z.of_nat n mod 2 ^ 32 in
        small_loop fuel (exp (- lambda)%dbl) 0 d_1 st
        = Ret (k, uniform_draws n st)
        /\ rocrand_poisson e fuel st lambda
           = Ret (uint_wrap (k - 1), uniform_draws n st)
        /\ (k <> 0 -> 1 <= k /\ uint_wrap (k - 1) = k - 1)
        /\ (k = 0 -> uint_wrap (k - 1) = 2 ^ 32 - 1))
  /\ (forall v st',
        rocrand_poisson e fuel st lambda = Ret (v, st') ->
        0 <= v < 2 ^ 32
        /\ (route e lambda = to_small ->
            exists k,
              small_loop fuel (exp (- lambda)%dbl) 0 d_1 st = Ret (k, st')
              /\ v = uint_wrap (k - 1)
              /\ (1 <= k -> v = k - 1))
        /\ (route e lambda = to_itr -> v <= 2 ^ 31 - 1)
        /\ (route e lambda = to_huge ->
            trunc (huge_operand st lambda) = Some v)).
Proof.
  rewrite (rocrand_poisson_route e fuel st lambda).
  split; [|split; [apply large_loop_outcome|split]].
  - destruct (route e lambda).
    + split; [|intros [H _]; discriminate H].
      intros E. exfalso.
      exact (proj1 (small_path_outcome fuel st lambda) E).
    + split; [|intros [H _]; discriminate H].
      intros E. exfalso.
      exact (proj1 (large_loop_outcome fuel _ _ _ _ st) E).
    + rewrite huge_negative_iff. tauto.
    + split; [|intros [H _]; discriminate H].
      intros E. exfalso.
      exact (proj1 (poisson_itr_outcome fuel st lambda) E).
  - intros Hroute n Hff Hfuel k. rewrite Hroute.
    pose proof (poisson_distribution_small_runs n fuel st lambda Hff)
      as Hsmall.
    destruct Hff as (Hn1 & Hbefore & Hat).
    pose proof (small_loop_runs n fuel _ 0 d_1 st Hn1 Hbefore Hat)
      as Hloop.
    destruct (Nat.leb_spec n fuel); [|lia].
    split; [exact Hloop|]. split.
    + rewrite Hsmall. subst k. unfold uint_wrap, UINT_MODULUS.
      rewrite Zminus_mod_idemp_l. reflexivity.
    + assert (Hk : 0 <= k < 2 ^ 32)
        by (subst k; apply Z.mod_pos_bound; lia).
      unfold uint_wrap, UINT_MODULUS. split.
      * intros Hk0. split; [lia|]. apply Z.mod_small. lia.
      * intros ->. reflexivity.
  - intros v st' E.
    destruct (route e lambda).
    + split; [exact (proj2 (small_path_outcome fuel st lambda) v st' E)|].
      split; [intros _; apply small_returns; exact E|].
      split; discriminate.
    + split; [exact (proj2 (large_loop_outcome fuel _ _ _ _ st) v st' E)|].
      repeat split; discriminate.
    + destruct (huge_returns st lambda v st' E) as [Ht Hv].
      split; [exact Hv|]. split; [discriminate|].
      split; [discriminate|]. intros _. exact Ht.
    + pose proof (itr_returns fuel st lambda v st' E) as Hv.
      unfold INT_MAX in Hv.
      split; [lia|]. split; [discriminate|].
      split; [intros _; lia|discriminate].
Qed.

End Conversions.

(** Knuth's loop at lambda = 1 with the draws 0.5 and 0.5: two draws,
    k = 2 at loop exit, the call returns 1.  The normal approximation at
    lambda = 5000 with the draw -100: the rounded value is -2071, and
    the call converts it. *)
Lemma rocrand_poisson_never_negative_witness :
  (let st := Bench.Script [d_0_5; d_0_5] [] in
   let k := Z.of_nat 2 mod 2 ^ 32 in
   small_loop 2 (@exp Bench.table_Libm (- d_1)%dbl) 0 d_1 st
   = Ret (k, uniform_draws 2 st)
   /\ rocrand_poisson (M := Bench.table_Libm) philox4x32_10 2 st d_1
      = Ret (uint_wrap (k - 1), uniform_draws 2 st)
   /\ (k <> 0 -> 1 <= k /\ uint_wrap (k - 1) = k - 1)
   /\ (k = 0 -> uint_wrap (k - 1) = 2 ^ 32 - 1))
  /\ rocrand_poisson (M := Bench.table_Libm) philox4x32_10 0
       (Bench.Script [] [(- Tables.d_100)%dbl]) Bench.d_5000
     = Undefined NegativeToUnsigned.
Proof.
  split.
  - apply (proj1 (proj2 (proj2
             (rocrand_poisson_never_negative (M := Bench.table_Libm)
                philox4x32_10 2 (Bench.Script [d_0_5; d_0_5] []) d_1)))).
    + reflexivity.
    + split; [lia|]. split.
      * intros i Hi. assert (i = 1%nat) as -> by lia.
        vm_compute. reflexivity.
      * vm_compute. reflexivity.
    + lia.
  - apply (proj2 (proj1
             (rocrand_poisson_never_negative (M := Bench.table_Libm)
                philox4x32_10 0 (Bench.Script [] [(- Tables.d_100)%dbl])
                Bench.d_5000))).
    split; [reflexivity|]. vm_compute. reflexivity.
Defined.

(* ================================================================== *)
(** * The benchmark harness *)
(* ================================================================== *)

Import String Ascii Benchmark.

(** ** Selection of engines and distributions *)

Lemma found_In (s : string) (v : list string) :
  found s v = true <-> In s v.
Proof.
  unfold found. rewrite existsb_exists. split.
  - intros (x & Hin & Heq). apply String.eqb_eq in Heq. subst x. exact Hin.
  - intros Hin. exists s. split; [exact Hin|apply String.eqb_refl].
Qed.

Lemma found_ext (s : string) (v v' : list string) :
  (forall x, In x v <-> In x v') -> found s v = found s v'.
Proof.
  intros H. destruct (found s v') eqn:E.
  - apply found_In. apply H. apply found_In. exact E.
  - destruct (found s v) eqn:E'; [|reflexivity].
    apply found_In in E'. apply H in E'. apply found_In in E'. congruence.
Qed.

(** X9.  An engine or distribution runs exactly when it is a known one and
    the request holds its name or holds "all". *)
Theorem selected_spec (asked all : list string) (e : string) :
  In e (selected asked all)
  <-> In e all /\ (In "all"%string asked \/ In e asked).
Proof.
  unfold selected. destruct (found "all" asked) eqn:E.
  - apply found_In in E. tauto.
  - rewrite filter_In, found_In. split; [tauto|].
    intros [H [H'|H']]; [|tauto].
    apply found_In in H'. congruence.
Qed.

Lemma filter_all {A : Type} (l : list A) : filter (fun _ => true) l = l.
Proof.
  induction l as [|a l IH]; [reflexivity|].
  cbn [filter]. rewrite IH. reflexivity.
Qed.

(** X10.  The selection does not depend on the order or on repetitions
    of the request, only on the names it holds; and it is the list of
    known names with some of them left out, so it keeps their order. *)
Theorem selected_by_set (asked asked' all : list string) :
  (forall x, In x asked <-> In x asked') ->
  selected asked all = selected asked' all
  /\ exists keep, selected asked all = filter keep all.
Proof.
  intros H. unfold selected.
  rewrite (found_ext "all" asked asked' H).
  destruct (found "all" asked').
  - split; [reflexivity|].
    exists (fun _ => true). rewrite filter_all. reflexivity.
  - split.
    + apply filter_ext. intros a. apply found_ext. exact H.
    + exists (fun e => found e asked). reflexivity.
Qed.

Lemma selected_by_set_witness :
  selected ["philox"; "xorwow"; "philox"]%string all_engines
  = selected ["xorwow"; "philox"]%string all_engines
  /\ exists keep,
       selected ["philox"; "xorwow"; "philox"]%string all_engines
       = filter keep all_engines.
Proof.
  apply selected_by_set. intros x. cbn. tauto.
Defined.

Lemma NoDup_filter {A : Type} (p : A -> bool) (l : list A) :
  NoDup l -> NoDup (filter p l).
Proof.
  induction 1 as [|a l Hn Hd IH]; cbn; [constructor|].
  destruct (p a); [|exact IH].
  constructor; [|exact IH]. rewrite filter_In. tauto.
Qed.

Lemma selected_NoDup (asked all : list string) :
  NoDup all -> NoDup (selected asked all).
Proof.
  intros H. unfold selected. destruct (found "all" asked); [exact H|].
  apply NoDup_filter. exact H.
Qed.

Lemma all_engines_NoDup : NoDup all_engines.
Proof.
  unfold all_engines.
  repeat (constructor; [cbn; intuition discriminate|]).
  constructor.
Qed.

Lemma all_distributions_NoDup : NoDup all_distributions.
Proof.
  unfold all_distributions.
  repeat (constructor; [cbn; intuition discriminate|]).
  constructor.
Qed.

(** X11.  However often the request names it, no engine and no
    distribution is selected twice. *)
Theorem selected_names_once (asked : list string) :
  NoDup (selected asked all_engines)
  /\ NoDup (selected asked all_distributions).
Proof.
  split; apply selected_NoDup;
    [apply all_engines_NoDup|apply all_distributions_NoDup].
Qed.

(** ** Programs against the devices *)

Lemma io_bind_Next_inv {A B : Type} (m : io A) (k : A -> io B)
    (h : list event) (b : B) (t : list event) :
  io_bind m k h = (Next b, t) ->
  exists a t1 t2,
    m h = (Next a, t1) /\ k a (h ++ t1) = (Next b, t2) /\ t = t1 ++ t2.
Proof.
  unfold io_bind. destruct (m h) as [[a|code|] t1]; try discriminate.
  destruct (k a (h ++ t1)) as [r' t'] eqn:Ek.
  intros E. injection E as -> <-. exists a, t1, t'. auto.
Qed.

Ltac split_bind E H :=
  apply io_bind_Next_inv in E;
  let a := fresh "a" in
  let t1 := fresh "t" in
  let t2 := fresh "t" in
  destruct E as (a & t1 & t2 & H & E & ->);
  try match type of a with unit => destruct a end.

Section Programs.

Context {codes : Status}.
Variable respond : list event -> api_call -> Z.


Lemma HIP_CHECK_Next_inv (line : Z) (c : api_call) (h t : list event) :
  HIP_CHECK line (call respond c) h = (Next tt, t) ->
  t = [Called c hipSuccess].
Proof.
  unfold HIP_CHECK, io_bind, call.
  destruct (Z.eqb_spec (respond h c) hipSuccess) as [->|_]; cbn;
    [|discriminate].
  intros E. injection E as <-. reflexivity.
Qed.

Lemma ROCRAND_CHECK_Next_inv (line : Z) (c : api_call)
    (h t : list event) :
  ROCRAND_CHECK line (call respond c) h = (Next tt, t) ->
  t = [Called c ROCRAND_STATUS_SUCCESS].
Proof.
  unfold ROCRAND_CHECK, io_bind, call.
  destruct (Z.eqb_spec (respond h c) ROCRAND_STATUS_SUCCESS) as [->|_];
    cbn; [|discriminate].
  intros E. injection E as <-. reflexivity.
Qed.

Lemma for_n_Next_inv (line : Z) (c : api_call) (n : nat) :
  forall (h t : list event),
    for_n n (ROCRAND_CHECK line (call respond c)) h = (Next tt, t) ->
    t = repeat (Called c ROCRAND_STATUS_SUCCESS) n.
Proof.
  induction n as [|n IH]; intros h t; cbn [for_n repeat].
  - unfold io_ret. intros E. injection E as <-. reflexivity.
  - intros E. apply io_bind_Next_inv in E.
    destruct E as ([] & t1 & t2 & E1 & E2 & ->).
    apply ROCRAND_CHECK_Next_inv in E1. apply IH in E2. subst. reflexivity.
Qed.

Lemma dimensions_check_Next_inv (line s : Z) (h t : list event) :
  when (negb (s =? ROCRAND_STATUS_TYPE_ERROR))
    (ROCRAND_CHECK line (io_ret s)) h = (Next tt, t) ->
  (s = ROCRAND_STATUS_SUCCESS \/ s = ROCRAND_STATUS_TYPE_ERROR) /\ t = [].
Proof.
  unfold when, ROCRAND_CHECK, io_bind, io_ret.
  destruct (Z.eqb_spec s ROCRAND_STATUS_TYPE_ERROR) as [Hs|_];
    cbn [negb].
  - intros E. inversion E. auto.
  - destruct (Z.eqb_spec s ROCRAND_STATUS_SUCCESS) as [Hs|_].
    + intros E. inversion E. auto.
    + cbn. discriminate.
Qed.

(** X12.  A benchmark that runs to its end made exactly these calls: one
    allocation, one generator, the dimensions (a type error is let
    through), five and then [trials] generations that all succeeded, a
    synchronisation after each group, and the release of generator and
    memory. *)
Theorem run_benchmark_returns (T : element) (vm : variables_map)
    (rng_type : rng_type_t) (generate_func : generate_func_type)
    (h t : list event) (r : unit) :
  run_benchmark respond T vm rng_type generate_func h = (Next r, t) ->
  exists s,
    (s = ROCRAND_STATUS_SUCCESS \/ s = ROCRAND_STATUS_TYPE_ERROR)
    /\ t = benchmark_trace T vm rng_type generate_func s
    /\ generate_calls t = (5 + Z.to_nat (vm_trials vm))%nat.
Proof.
  destruct r. unfold run_benchmark. intros E.
  split_bind E E1.
  apply HIP_CHECK_Next_inv in E1. subst.
  split_bind E E2.
  apply ROCRAND_CHECK_Next_inv in E2. subst.
  split_bind E E3.
  unfold call in E3. injection E3 as Ha Ht. subst.
  split_bind E E4.
  apply dimensions_check_Next_inv in E4.
  destruct E4 as [Hs ->].
  split_bind E E5.
  apply for_n_Next_inv in E5. subst.
  split_bind E E6.
  apply HIP_CHECK_Next_inv in E6. subst.
  split_bind E E7.
  unfold now in E7. injection E7 as Ht. subst.
  split_bind E E8.
  apply for_n_Next_inv in E8. subst.
  split_bind E E9.
  apply HIP_CHECK_Next_inv in E9. subst.
  split_bind E E10.
  unfold now in E10. injection E10 as Ht. subst.
  split_bind E E11.
  unfold print in E11. injection E11 as Ht. subst.
  split_bind E E12.
  apply ROCRAND_CHECK_Next_inv in E12. subst.
  apply HIP_CHECK_Next_inv in E. subst.
  eexists. split; [exact Hs|]. split.
  - unfold benchmark_trace. cbn [app repeat]. reflexivity.
  - unfold generate_calls. cbn [app repeat filter is_generate List.length].
    rewrite !filter_app, !length_app. cbn [filter is_generate List.length].
    assert (Hrep : forall n c st,
              List.length (filter is_generate
                             (repeat (Called (generate c (vm_size vm)) st) n))
              = n).
    { intros n c st. induction n as [|n IHn]; cbn; [reflexivity|].
      f_equal. exact IHn. }
    rewrite Hrep. lia.
Qed.

End Programs.

(** The uniform-uint benchmark of two trials on devices that never
    fail. *)
Lemma run_benchmark_returns_witness :
  exists s,
    (s = 0 \/ s = 103)
    /\ snd (run_benchmark (codes := sample_Status) sample_respond
              unsigned_int sample_vm ROCRAND_RNG_PSEUDO_PHILOX4_32_10
              rocrand_generate [])
       = benchmark_trace (codes := sample_Status) unsigned_int sample_vm
           ROCRAND_RNG_PSEUDO_PHILOX4_32_10 rocrand_generate s
    /\ generate_calls
         (snd (run_benchmark (codes := sample_Status) sample_respond
                 unsigned_int sample_vm ROCRAND_RNG_PSEUDO_PHILOX4_32_10
                 rocrand_generate []))
       = (5 + Z.to_nat (vm_trials sample_vm))%nat.
Proof.
  apply (run_benchmark_returns (codes := sample_Status) sample_respond
           unsigned_int sample_vm ROCRAND_RNG_PSEUDO_PHILOX4_32_10
           rocrand_generate [] _ tt).
  reflexivity.
Defined.

(** ** How the program ends *)

Section Checks.

Context {codes : Status}.
Variable respond : list event -> api_call -> Z.

Lemma failed_at_app (code : Z) (t1 t2 : list event) :
  failed_at code t2 -> failed_at code (t1 ++ t2).
Proof.
  intros (pre & c & line & -> & H).
  exists (t1 ++ pre), c, line. rewrite app_assoc. auto.
Qed.

Lemma checked_bind {A B : Type} (P : A -> Prop) (Q : B -> Prop)
    (m : io A) (k : A -> io B) :
  checked P m -> (forall a, P a -> checked Q (k a)) ->
  checked Q (io_bind m k).
Proof.
  intros Hm Hk h. specialize (Hm h). unfold io_bind.
  destruct (m h) as [[a|code|] t1]; cbn in Hm |- *;
    [|exact Hm|exact Hm].
  specialize (Hk a Hm (h ++ t1)).
  destruct (k a (h ++ t1)) as [[b|code|] t2]; cbn in Hk |- *;
    [exact Hk|apply failed_at_app; exact Hk|exact Hk].
Qed.

Lemma checked_seq {B : Type} (Q : B -> Prop) (m : io unit) (k : io B) :
  checked (fun _ => True) m -> checked Q k ->
  checked Q (io_bind m (fun _ => k)).
Proof.
  intros Hm Hk. apply (checked_bind (fun _ => True)); auto.
Qed.

Lemma checked_ret {A : Type} (P : A -> Prop) (a : A) :
  P a -> checked P (io_ret a).
Proof. intros H h. exact H. Qed.

Lemma checked_print (o : output) : checked (fun _ => True) (print o).
Proof. intros h. exact I. Qed.

Lemma checked_now : checked (fun _ => True) now.
Proof. intros h. exact I. Qed.

Lemma checked_when (b : bool) (m : io unit) :
  checked (fun _ => True) m -> checked (fun _ => True) (when b m).
Proof. intros H. destruct b; [exact H|]. intros h. exact I. Qed.

Lemma checked_for_n (n : nat) (body : io unit) :
  checked (fun _ => True) body -> checked (fun _ => True) (for_n n body).
Proof.
  intros H. induction n as [|n IH]; cbn [for_n].
  - apply checked_ret. exact I.
  - apply checked_seq; assumption.
Qed.

Lemma checked_for_each {A : Type} (l : list A) (body : A -> io unit) :
  (forall a, In a l -> checked (fun _ => True) (body a)) ->
  checked (fun _ => True) (for_each l body).
Proof.
  induction l as [|a l IH]; intros H; cbn [for_each].
  - apply checked_ret. exact I.
  - apply checked_seq.
    + apply H. left. reflexivity.
    + apply IH. intros a' Ha'. apply H. right. exact Ha'.
Qed.

Lemma checked_HIP_CHECK (line : Z) (c : api_call) :
  (forall s, accepted c s = (s =? hipSuccess)) ->
  (forall s, error_output c s line = HIP_error s line) ->
  checked (fun _ => True) (HIP_CHECK line (call respond c)).
Proof.
  intros Ha He h. unfold HIP_CHECK, io_bind, call.
  destruct (respond h c =? hipSuccess) eqn:E; cbn; [exact I|].
  exists [], c, line. rewrite He, Ha. auto.
Qed.

Lemma checked_ROCRAND_CHECK (line : Z) (c : api_call) :
  (forall s, accepted c s = (s =? ROCRAND_STATUS_SUCCESS)) ->
  (forall s, error_output c s line = ROCRAND_error s line) ->
  checked (fun _ => True) (ROCRAND_CHECK line (call respond c)).
Proof.
  intros Ha He h. unfold ROCRAND_CHECK, io_bind, call.
  destruct (respond h c =? ROCRAND_STATUS_SUCCESS) eqn:E; cbn; [exact I|].
  exists [], c, line. rewrite He, Ha. auto.
Qed.

Lemma dimensions_check_does (line s : Z) (h : list event) :
  when (negb (s =? ROCRAND_STATUS_TYPE_ERROR))
    (ROCRAND_CHECK line (io_ret s)) h
  = if (s =? ROCRAND_STATUS_SUCCESS) || (s =? ROCRAND_STATUS_TYPE_ERROR)
    then (Next tt, [])
    else (Exit s, [Printed (ROCRAND_error s line)]).
Proof.
  unfold when, ROCRAND_CHECK, io_bind, io_ret.
  destruct (s =? ROCRAND_STATUS_TYPE_ERROR); cbn [negb orb];
    [rewrite orb_true_r; reflexivity|].
  destruct (s =? ROCRAND_STATUS_SUCCESS); reflexivity.
Qed.

Lemma checked_dimensions {B : Type} (Q : B -> Prop) (line dimensions : Z)
    (rest : io B) :
  checked Q rest ->
  checked Q
    (io_bind
       (call respond
          (rocrand_set_quasi_random_generator_dimensions dimensions))
       (fun status =>
          io_bind
            (when (negb (status =? ROCRAND_STATUS_TYPE_ERROR))
               (ROCRAND_CHECK line (io_ret status)))
            (fun _ => rest))).
Proof.
  intros Hrest h.
  set (c := rocrand_set_quasi_random_generator_dimensions dimensions).
  change (ends_well Q
            (let (r', t') :=
               io_bind
                 (when (negb (respond h c =? ROCRAND_STATUS_TYPE_ERROR))
                    (ROCRAND_CHECK line (io_ret (respond h c))))
                 (fun _ => rest) (h ++ [Called c (respond h c)]) in
             (r', [Called c (respond h c)] ++ t'))).
  generalize (respond h c). intros s.
  unfold io_bind at 1. rewrite dimensions_check_does.
  destruct ((s =? ROCRAND_STATUS_SUCCESS)
            || (s =? ROCRAND_STATUS_TYPE_ERROR)) eqn:E.
  - specialize (Hrest ((h ++ [Called c s]) ++ [])).
    destruct (rest ((h ++ [Called c s]) ++ [])) as [[b|code|] t'];
      cbn in Hrest |- *; [exact Hrest| |exact Hrest].
    apply (failed_at_app code [Called c s]). exact Hrest.
  - cbn. exists [], c, line. split; [reflexivity|]. exact E.
Qed.

Lemma run_benchmark_checked (T : element) (vm : variables_map)
    (rng_type : rng_type_t) (generate_func : generate_func_type) :
  checked (fun _ => True)
    (run_benchmark respond T vm rng_type generate_func).
Proof.
  unfold run_benchmark.
  apply checked_seq; [apply checked_HIP_CHECK; reflexivity|].
  apply checked_seq; [apply checked_ROCRAND_CHECK; reflexivity|].
  apply checked_dimensions.
  apply checked_seq;
    [apply checked_for_n; apply checked_ROCRAND_CHECK; reflexivity|].
  apply checked_seq; [apply checked_HIP_CHECK; reflexivity|].
  apply checked_seq; [apply checked_now|].
  apply checked_seq;
    [apply checked_for_n; apply checked_ROCRAND_CHECK; reflexivity|].
  apply checked_seq; [apply checked_HIP_CHECK; reflexivity|].
  apply checked_seq; [apply checked_now|].
  apply checked_seq; [apply checked_print|].
  apply checked_seq; [apply checked_ROCRAND_CHECK; reflexivity|].
  apply checked_HIP_CHECK; reflexivity.
Qed.

Lemma run_benchmarks_checked (vm : variables_map) (rng_type : rng_type_t)
    (distribution : string) :
  checked (fun _ => True) (run_benchmarks respond vm rng_type distribution).
Proof.
  unfold run_benchmarks.
  do 7 (apply checked_seq;
        [apply checked_when; apply run_benchmark_checked|]).
  apply checked_when. apply checked_for_each. intros lambda _.
  apply checked_seq; [apply checked_print|apply run_benchmark_checked].
Qed.

Lemma rng_type_of_known (engine : string) :
  In engine all_engines -> exists r, rng_type_of engine = Some r.
Proof.
  unfold all_engines. cbn [In].
  intros [<-|[<-|[<-|[<-|[]]]]]; eexists; reflexivity.
Qed.

Lemma selected_known (asked all : list string) (e : string) :
  In e (selected asked all) -> In e all.
Proof.
  unfold selected. destruct (found "all" asked); [tauto|].
  rewrite filter_In. tauto.
Qed.

(** X13.  However the devices answer, [main] ends in one of two ways: it
    returns 0, or it exits right after a call whose status is not accepted,
    with the message of that call printed and its status as exit code.  In
    particular [rng_type], which the chain of comparisons may leave
    unassigned, is assigned whenever it is read. *)
Theorem main_ends (vm : variables_map) (h : list event) :
  match main respond vm h with
  | (Next r, _) => r = 0
  | (Exit code, t) => failed_at code t
  | (Indeterminate, _) => False
  end.
Proof.
  change (ends_well (fun r => r = 0) (main respond vm h)).
  revert h. change (checked (fun r => r = 0) (main respond vm)).
  unfold main. destruct (vm_help vm).
  - apply checked_seq; [apply checked_print|].
    apply checked_ret. reflexivity.
  - apply checked_seq; [apply checked_print|].
    apply checked_seq; [|apply checked_ret; reflexivity].
    apply checked_for_each. intros engine He.
    apply selected_known in He.
    destruct (rng_type_of_known engine He) as [r ->].
    apply checked_seq; [apply checked_print|].
    apply checked_seq; [|apply checked_print].
    apply checked_for_each. intros distribution _.
    apply checked_seq; [apply checked_print|].
    apply run_benchmarks_checked.
Qed.

End Checks.

(** ** Measurements *)

Lemma throughput_lines_app (t1 t2 : list event) :
  throughput_lines (t1 ++ t2)
  = (throughput_lines t1 + throughput_lines t2)%nat.
Proof. unfold throughput_lines. rewrite filter_app, length_app. reflexivity. Qed.

Lemma yields_bind {A B : Type} (m : io A) (k : A -> io B) (a : A) (b : B)
    (n1 n2 : nat) :
  yields m a n1 -> yields (k a) b n2 -> yields (io_bind m k) b (n1 + n2).
Proof.
  intros Hm Hk h. destruct (Hm h) as (t1 & E1 & H1).
  destruct (Hk (h ++ t1)) as (t2 & E2 & H2).
  exists (t1 ++ t2). unfold io_bind. rewrite E1, E2.
  split; [reflexivity|]. rewrite throughput_lines_app. lia.
Qed.

Lemma yields_ret {A : Type} (a : A) : yields (io_ret a) a 0.
Proof. intros h. exists []. split; reflexivity. Qed.

Lemma yields_now : yields now tt 0.
Proof. intros h. exists [Clock]. split; reflexivity. Qed.

Lemma yields_print (o : output) :
  yields (print o) tt (if is_throughput (Printed o) then 1 else 0).
Proof.
  intros h. exists [Printed o]. split; [reflexivity|].
  unfold throughput_lines. cbn [filter].
  destruct (is_throughput (Printed o)); reflexivity.
Qed.

Lemma yields_when (b : bool) (m : io unit) (n : nat) :
  yields m tt n -> yields (when b m) tt (if b then n else 0).
Proof. intros H. destruct b; [exact H|apply yields_ret]. Qed.

Lemma yields_for_n (n : nat) (body : io unit) :
  yields body tt 0 -> yields (for_n n body) tt 0.
Proof.
  intros H. induction n as [|n IH]; cbn [for_n].
  - apply yields_ret.
  - apply (yields_bind body (fun _ => for_n n body) tt tt 0 0 H IH).
Qed.

Lemma yields_for_each {A : Type} (l : list A) (body : A -> io unit)
    (f : A -> nat) :
  (forall a, In a l -> yields (body a) tt (f a)) ->
  yields (for_each l body) tt (list_sum (map f l)).
Proof.
  induction l as [|a l IH]; intros H; cbn [for_each map list_sum].
  - apply yields_ret.
  - change (list_sum (f a :: map f l))
      with (f a + list_sum (map f l))%nat.
    apply (yields_bind (body a) (fun _ => for_each l body) tt tt).
    + apply H. left. reflexivity.
    + apply IH. intros a' Ha'. apply H. right. exact Ha'.
Qed.

Section Accepting.

Context {codes : Status}.
Variable respond : list event -> api_call -> Z.
Hypothesis Hrespond : accepting respond.

Lemma yields_HIP_CHECK (line : Z) (c : api_call) :
  (forall s, accepted c s = (s =? hipSuccess)) ->
  yields (HIP_CHECK line (call respond c)) tt 0.
Proof.
  intros Ha h. unfold HIP_CHECK, io_bind, call.
  rewrite <- Ha, Hrespond. cbn. eexists. split; reflexivity.
Qed.

Lemma yields_ROCRAND_CHECK (line : Z) (c : api_call) :
  (forall s, accepted c s = (s =? ROCRAND_STATUS_SUCCESS)) ->
  yields (ROCRAND_CHECK line (call respond c)) tt 0.
Proof.
  intros Ha h. unfold ROCRAND_CHECK, io_bind, call.
  rewrite <- Ha, Hrespond. cbn. eexists. split; reflexivity.
Qed.

Lemma yields_dimensions (line dimensions : Z) (rest : io unit) (n : nat) :
  yields rest tt n ->
  yields
    (io_bind
       (call respond
          (rocrand_set_quasi_random_generator_dimensions dimensions))
       (fun status =>
          io_bind
            (when (negb (status =? ROCRAND_STATUS_TYPE_ERROR))
               (ROCRAND_CHECK line (io_ret status)))
            (fun _ => rest))) tt n.
Proof.
  intros Hrest h.
  set (c := rocrand_set_quasi_random_generator_dimensions dimensions).
  pose proof (Hrespond h c) as Hs.
  change (exists t,
            (let (r', t') :=
               io_bind
                 (when (negb (respond h c =? ROCRAND_STATUS_TYPE_ERROR))
                    (ROCRAND_CHECK line (io_ret (respond h c))))
                 (fun _ => rest) (h ++ [Called c (respond h c)]) in
             (r', [Called c (respond h c)] ++ t')) = (Next tt, t)
            /\ throughput_lines t = n).
  revert Hs. generalize (respond h c). intros s Hs.
  unfold io_bind at 1. rewrite dimensions_check_does.
  change ((s =? ROCRAND_STATUS_SUCCESS)
          || (s =? ROCRAND_STATUS_TYPE_ERROR)) with (accepted c s).
  rewrite Hs.
  destruct (Hrest ((h ++ [Called c s]) ++ [])) as (t & E & Ht).
  rewrite E. eexists. split; [reflexivity|].
  cbn [app]. unfold throughput_lines in *. cbn [filter is_throughput].
  exact Ht.
Qed.

Lemma run_benchmark_yields (T : element) (vm : variables_map)
    (rng_type : rng_type_t) (generate_func : generate_func_type) :
  yields (run_benchmark respond T vm rng_type generate_func) tt 1.
Proof.
  unfold run_benchmark.
  apply (yields_bind _ _ tt tt 0 1);
    [apply yields_HIP_CHECK; reflexivity|].
  apply (yields_bind _ _ tt tt 0 1);
    [apply yields_ROCRAND_CHECK; reflexivity|].
  apply yields_dimensions.
  apply (yields_bind _ _ tt tt 0 1);
    [apply yields_for_n; apply yields_ROCRAND_CHECK; reflexivity|].
  apply (yields_bind _ _ tt tt 0 1);
    [apply yields_HIP_CHECK; reflexivity|].
  apply (yields_bind _ _ tt tt 0 1); [apply yields_now|].
  apply (yields_bind _ _ tt tt 0 1);
    [apply yields_for_n; apply yields_ROCRAND_CHECK; reflexivity|].
  apply (yields_bind _ _ tt tt 0 1);
    [apply yields_HIP_CHECK; reflexivity|].
  apply (yields_bind _ _ tt tt 0 1); [apply yields_now|].
  apply (yields_bind _ _ tt tt 1 0); [apply yields_print|].
  apply (yields_bind _ _ tt tt 0 0);
    [apply yields_ROCRAND_CHECK; reflexivity|].
  apply yields_HIP_CHECK; reflexivity.
Qed.

Lemma list_sum_ones {A : Type} (l : list A) :
  list_sum (map (fun _ => 1%nat) l) = List.length l.
Proof.
  induction l as [|a l IH]; [reflexivity|].
  change (S (list_sum (map (fun _ => 1%nat) l)) = S (List.length l)).
  rewrite IH. reflexivity.
Qed.

Lemma jobs_sum (vm : variables_map) (d : string) :
  ((if (d =? "uniform-uint")%string then 1 else 0)
   + ((if (d =? "uniform-float")%string then 1 else 0)
      + ((if (d =? "uniform-double")%string then 1 else 0)
         + ((if (d =? "normal-float")%string then 1 else 0)
            + ((if (d =? "normal-double")%string then 1 else 0)
               + ((if (d =? "log-normal-float")%string then 1 else 0)
                  + ((if (d =? "log-normal-double")%string then 1 else 0)
                     + (if (d =? "poisson")%string
                        then List.length (vm_lambda vm) else 0))))))))%nat
  = jobs vm d.
Proof.
  unfold jobs, found, all_distributions. cbn [existsb].
  repeat match goal with
         | |- context [(d =? ?n)%string] =>
             destruct (String.eqb_spec d n) as [->|?];
             [cbn; try lia; reflexivity|]
         end.
  repeat match goal with
         | H : d <> ?n |- _ =>
             rewrite (proj2 (String.eqb_neq n d)) by congruence; clear H
         end.
  reflexivity.
Qed.

Lemma run_benchmarks_yields (vm : variables_map) (rng_type : rng_type_t)
    (distribution : string) :
  yields (run_benchmarks respond vm rng_type distribution) tt
    (jobs vm distribution).
Proof.
  rewrite <- jobs_sum. unfold run_benchmarks.
  do 7 (apply (yields_bind _ _ tt tt);
        [apply yields_when; apply run_benchmark_yields|]).
  apply yields_when. rewrite <- list_sum_ones.
  apply yields_for_each. intros lambda _.
  apply (yields_bind _ _ tt tt 0 1);
    [apply yields_print|apply run_benchmark_yields].
Qed.

(** X14.  With devices that never fail, a distribution name stands for a
    fixed number of measurements: one for each lambda for "poisson", one
    for each other known name, none for any other string. *)
Theorem run_benchmarks_measurements (vm : variables_map)
    (rng_type : rng_type_t) (distribution : string) (h : list event) :
  exists t,
    run_benchmarks respond vm rng_type distribution h = (Next tt, t)
    /\ throughput_lines t = jobs vm distribution.
Proof. apply run_benchmarks_yields. Qed.

Lemma list_sum_const {A : Type} (l : list A) (n : nat) :
  list_sum (map (fun _ => n) l) = (List.length l * n)%nat.
Proof.
  induction l as [|a l IH]; [reflexivity|].
  change (n + list_sum (map (fun _ => n) l)
          = n + List.length l * n)%nat.
  rewrite IH. reflexivity.
Qed.

(** X15.  With devices that never fail, [main] returns 0 after one
    measurement for every selected engine and every job of every selected
    distribution. *)
Theorem main_measurements (vm : variables_map) (h : list event) :
  vm_help vm = false ->
  exists t,
    main respond vm h = (Next 0, t)
    /\ throughput_lines t
       = (List.length (selected (vm_engine vm) all_engines)
          * list_sum (map (jobs vm)
                        (selected (vm_dis vm) all_distributions)))%nat.
Proof.
  intros Hhelp. revert h.
  change (yields (main respond vm) 0
            (List.length (selected (vm_engine vm) all_engines)
             * list_sum (map (jobs vm)
                           (selected (vm_dis vm) all_distributions)))).
  unfold main. rewrite Hhelp.
  rewrite <- list_sum_const.
  apply (yields_bind _ _ tt 0 0); [apply yields_print|].
  rewrite <- (Nat.add_0_r (list_sum _)).
  apply (yields_bind _ _ tt 0); [|apply yields_ret].
  apply yields_for_each. intros engine He.
  apply selected_known in He.
  destruct (rng_type_of_known engine He) as [r ->].
  apply (yields_bind _ _ tt tt 0); [apply yields_print|].
  rewrite <- (Nat.add_0_r (list_sum _)).
  apply (yields_bind _ _ tt tt); [|apply yields_print].
  apply yields_for_each. intros distribution _.
  apply (yields_bind _ _ tt tt 0); [apply yields_print|].
  apply run_benchmarks_yields.
Qed.

End Accepting.

Lemma sample_respond_accepting :
  accepting (codes := sample_Status) sample_respond.
Proof. intros h c. destruct c; reflexivity. Qed.

(** "poisson" with the two lambdas of the example. *)
Lemma run_benchmarks_measurements_witness :
  exists t,
    run_benchmarks (codes := sample_Status) sample_respond sample_vm
      ROCRAND_RNG_PSEUDO_XORWOW "poisson" [] = (Next tt, t)
    /\ throughput_lines t = 2%nat.
Proof.
  apply (run_benchmarks_measurements (codes := sample_Status)
           sample_respond sample_respond_accepting sample_vm
           ROCRAND_RNG_PSEUDO_XORWOW "poisson" []).
Defined.

(** Two engines, named three times, and two distributions, one of them
    "poisson" with two lambdas: six measurements. *)
Lemma main_measurements_witness :
  exists t,
    main (codes := sample_Status) sample_respond sample_vm []
    = (Next 0, t)
    /\ throughput_lines t = 6%nat.
Proof.
  apply (main_measurements (codes := sample_Status)
           sample_respond sample_respond_accepting sample_vm []).
  reflexivity.
Defined.

(** ** The help text *)

Lemma append_assoc (a b c : string) :
  ((a ++ b) ++ c = a ++ (b ++ c))%string.
Proof. induction a as [|x a IH]; cbn; [reflexivity|]. rewrite IH. reflexivity. Qed.

Lemma append_nil_r (a : string) : (a ++ "")%string = a.
Proof. induction a as [|x a IH]; cbn; [reflexivity|]. rewrite IH. reflexivity. Qed.

Lemma accumulate_from (names : list string) :
  forall acc : string,
    fold_left (fun a b => ((a ++ (LF ++ "   ")) ++ b)%string) names acc
    = (acc ++ listing names)%string.
Proof.
  induction names as [|n names IH]; intros acc; cbn [fold_left listing].
  - rewrite append_nil_r. reflexivity.
  - rewrite IH. rewrite !append_assoc. reflexivity.
Qed.

Lemma listing_holds (names : list string) (n : string) :
  In n names ->
  exists pre post,
    listing names = (pre ++ ((LF ++ "   ") ++ n) ++ post)%string.
Proof.
  induction names as [|m names IH]; intros H; [destruct H|].
  destruct H as [->|H].
  - exists EmptyString, (listing names). reflexivity.
  - destruct (IH H) as (pre & post & E).
    exists (((LF ++ "   ") ++ m) ++ pre)%string, post.
    cbn [listing]. rewrite E. rewrite !append_assoc. reflexivity.
Qed.

(** X16.  The text that describes the choice of names lists every name in
    its order, each on a line of its own after three spaces. *)
Theorem accumulate_names_lists (names : list string) :
  accumulate_names names = listing names
  /\ forall n, In n names ->
       exists pre post,
         accumulate_names names
         = (pre ++ ((LF ++ "   ") ++ n) ++ post)%string.
Proof.
  assert (E : accumulate_names names = listing names).
  { unfold accumulate_names. rewrite accumulate_from. reflexivity. }
  split; [exact E|]. rewrite E. apply listing_holds.
Qed.
